(** * generate-brightness-lut.py: the brightness lookup-table generator

    A shallow embedding of the script [generate-brightness-lut.py] and the
    properties of its sample generation, validation and rendering.

    Python values are modelled as follows:
    - [int] is [Z] (unbounded);
    - [float] is the IEEE 754 binary64 type [float] of the kernel, with its
      own [+], [-], [*] and [/];
    - [str] is [string]; standard output is the text written so far;
    - an uncaught exception ends the run: every statement lives in a small
      monad that threads standard output and may raise. *)

From Stdlib Require Import ZArith List String Ascii Bool Lia.
From Stdlib Require Import Floats DecimalString DecimalPos DecimalZ.
Import ListNotations.

Local Open Scope string_scope.
Local Open Scope Z_scope.

(** ** Exceptions and the statement monad *)

Inductive exn : Type :=
| ValueError (msg : string)
| OverflowError (msg : string)
| ZeroDivisionError (msg : string)
| IndexError (msg : string).

(** The result of evaluating an expression: a value or a raised exception. *)
Definition res (A : Type) : Type := (exn + A)%type.

(** A statement: reads the text on standard output so far, returns a value or
    raises, and leaves the (possibly longer) text on standard output. *)
Definition M (A : Type) : Type := string -> res A * string.

Definition ret {A} (a : A) : M A := fun out => (inr a, out).

Definition raise {A} (e : exn) : M A := fun out => (inl e, out).

Definition bind {A B} (m : M A) (k : A -> M B) : M B :=
  fun out =>
    match m out with
    | (inr a, out') => k a out'
    | (inl e, out') => (inl e, out')
    end.

(** An expression that may raise, used as a statement. *)
Definition lift {A} (r : res A) : M A := fun out => (r, out).

(** Sequencing of expressions that may raise. *)
Definition rbind {A B} (r : res A) (k : A -> res B) : res B :=
  match r with
  | inr a => k a
  | inl e => inl e
  end.

Declare Scope py_scope.
Delimit Scope py_scope with py.
Notation "x <- m ;; k" := (bind m (fun x => k))
  (at level 61, m at next level, right associativity) : py_scope.
Notation "m ;; k" := (bind m (fun _ => k))
  (at level 61, right associativity) : py_scope.
Notation "x <~ r ;; k" := (rbind r (fun x => k))
  (at level 61, r at next level, right associativity) : py_scope.
Local Open Scope py_scope.

(** [for index in idxs: body], where the body may update one local variable. *)
Fixpoint for_each {S} (idxs : list Z) (body : Z -> S -> M S) (s : S) : M S :=
  match idxs with
  | [] => ret s
  | i :: rest => s' <- body i s ;; for_each rest body s'
  end.

(** [range(n)]: 0, 1, ..., n-1; empty when n <= 0. *)
Definition range (n : Z) : list Z := map Z.of_nat (seq 0 (Z.to_nat n)).

(** ** Built-ins *)

(** [str(n)] for an int. *)
Definition str (n : Z) : string := NilZero.string_of_int (Z.to_int n).

(** [print(s, end=e)]. *)
Definition print (s e : string) : M unit := fun out => (inr tt, out ++ s ++ e).

Definition newline : string := String (ascii_of_nat 10) "".

(** [float(n)] for an int: the nearest binary64 value, ties to even;
    raises when that is beyond the largest finite value. *)
Definition float_of_int (n : Z) : res float :=
  let f := SF2Prim (binary_normalize prec emax n 0 false) in
  if is_infinity f
  then inl (OverflowError "int too large to convert to float")
  else inr f.

(** [a / b] on floats. *)
Definition float_div (a b : float) : res float :=
  if (b =? 0)%float
  then inl (ZeroDivisionError "float division by zero")
  else inr (a / b)%float.

(** [math.pi]. *)
Definition math_pi : float := 0x1.921fb54442d18p+1%float.

(** The integer nearest to m * 2^e (m >= 0), ties to the even one. *)
Definition round_half_even (m e : Z) : Z :=
  if 0 <=? e then m * 2 ^ e
  else
    let d := 2 ^ (- e) in
    let q := m / d in
    let r := m mod d in
    match 2 * r ?= d with
    | Lt => q
    | Gt => q + 1
    | Eq => if Z.even q then q else q + 1
    end.

(** [round(y)] for a float, with no digits argument: an int; raises on NaN
    and on the infinities. *)
Definition py_round (y : float) : res Z :=
  match Prim2SF y with
  | S754_nan => inl (ValueError "cannot convert float NaN to integer")
  | S754_infinity _ => inl (OverflowError "cannot convert float infinity to integer")
  | S754_zero _ => inr 0
  | S754_finite s m e =>
      let n := round_half_even (Zpos m) e in
      inr (if s then - n else n)
  end.

(** [a % b] on ints: the sign of the result is that of [b]. *)
Definition py_mod (a b : Z) : res Z :=
  if b =? 0
  then inl (ZeroDivisionError "integer modulo by zero")
  else inr (a mod b).

(** [l[i]] on a list; a negative index counts from the end. *)
Definition getitem (l : list Z) (i : Z) : res Z :=
  let j := if i <? 0 then i + Z.of_nat (List.length l) else i in
  if j <? 0 then inl (IndexError "list index out of range")
  else match nth_error l (Z.to_nat j) with
       | Some v => inr v
       | None => inl (IndexError "list index out of range")
       end.

(** ** Regular expressions

    The two patterns of the script only use character classes, sequence,
    the optional group, [*] and [+]; matching is by derivatives. *)

Inductive regex : Type :=
| Never
| Empty
| Class (p : ascii -> bool)
| Seq (r1 r2 : regex)
| Alt (r1 r2 : regex)
| Star (r : regex).

Definition Opt (r : regex) : regex := Alt Empty r.
Definition Plus (r : regex) : regex := Seq r (Star r).
Definition Chr (c : ascii) : regex := Class (Ascii.eqb c).

Fixpoint nullable (r : regex) : bool :=
  match r with
  | Never => false
  | Empty => true
  | Class _ => false
  | Seq r1 r2 => nullable r1 && nullable r2
  | Alt r1 r2 => nullable r1 || nullable r2
  | Star _ => true
  end.

Fixpoint deriv (c : ascii) (r : regex) : regex :=
  match r with
  | Never => Never
  | Empty => Never
  | Class p => if p c then Empty else Never
  | Seq r1 r2 =>
      if nullable r1
      then Alt (Seq (deriv c r1) r2) (deriv c r2)
      else Seq (deriv c r1) r2
  | Alt r1 r2 => Alt (deriv c r1) (deriv c r2)
  | Star r1 => Seq (deriv c r1) (Star r1)
  end.

(** The whole of [s] is in the language of [r]. *)
Fixpoint fullmatch (r : regex) (s : string) : bool :=
  match s with
  | EmptyString => nullable r
  | String c s' => fullmatch (deriv c r) s'
  end.

(** [s] without its last character when that is a newline. *)
Fixpoint chop_newline (s : string) : option string :=
  match s with
  | EmptyString => None
  | String c EmptyString => if Ascii.eqb c (ascii_of_nat 10) then Some "" else None
  | String c s' => option_map (String c) (chop_newline s')
  end.

(** [re.compile(p).match(s)] is not None, for a pattern [p] that is [r]
    between "^" and "$": "^" anchors at the start, "$" at the end of the
    string or just before a newline that ends it. *)
Definition re_match (r : regex) (s : string) : bool :=
  fullmatch r s ||
  match chop_newline s with
  | Some s' => fullmatch r s'
  | None => false
  end.

Definition in_range (lo hi : nat) (c : ascii) : bool :=
  let n := nat_of_ascii c in (Nat.leb lo n && Nat.leb n hi)%bool.

(** The class "[a-zA-Z_]". *)
Definition ident_start (c : ascii) : bool :=
  in_range 97 122 c || in_range 65 90 c || Ascii.eqb c "_".

(** The class "[a-zA-Z0-9_]". *)
Definition ident_char (c : ascii) : bool :=
  in_range 97 122 c || in_range 65 90 c || in_range 48 57 c || Ascii.eqb c "_".

(** Between "^" and "$": one or more times the group
    "(?:::)?[a-zA-Z_][a-zA-Z0-9_]*". *)
Definition regex_cpp_identifier_with_scope : regex :=
  Plus (Seq (Opt (Seq (Chr ":") (Chr ":")))
            (Seq (Class ident_start) (Star (Class ident_char)))).

(** Between "^" and "$": "[a-zA-Z_][a-zA-Z0-9_]*". *)
Definition regex_cpp_identifier : regex :=
  Seq (Class ident_start) (Star (Class ident_char)).

(** ** The parsed command line

    The namespace returned by [parser.parse_args()]; [length_] is the
    positional argument [length]. *)

Record Args : Type := mkArgs {
  length_ : Z;
  data_type : string;
  name : string;
  amplitude : float;
  frequency : float;
  phase : float;
  shift : float;
  lower_cutoff : Z;
  upper_cutoff : Z;
  wrap : Z;
  (* [store_const]: None without the flag, True with it; only its truth
     value is ever used. *)
  values_only : bool
}.

(** ** The script *)

Section Script.

(** [math.sin], the host's: a float, or an exception (on an infinity). *)
Variable math_sin : float -> res float.

(** Lines 80-89: sanity check of the command line arguments. *)
Definition validate (args : Args) : M unit :=
  (if negb (values_only args) then
     (if negb (re_match regex_cpp_identifier_with_scope (data_type args))
      then raise (ValueError "--data-type musdt specify a valid C++ type identifier.")
      else ret tt) ;;
     (if negb (re_match regex_cpp_identifier (name args))
      then raise (ValueError "--name must specify a valid C++ variable name.")
      else ret tt)
   else ret tt) ;;
  (if lower_cutoff args >? upper_cutoff args
   then raise (ValueError "--lower-cutoff must not be greater than --upper-cutoff.")
   else ret tt).

(** Lines 95-99: the value for one position of the table. *)
Definition sample (args : Args) (index : Z) : res Z :=
  fi <~ float_of_int index ;;
  fl <~ float_of_int (length_ args) ;;
  q <~ float_div fi fl ;;
  let x := (q * 2 * math_pi)%float in
  s <~ math_sin (frequency args * (x - phase args))%float ;;
  let y := (amplitude args * s + shift args)%float in
  r <~ py_round y ;;
  let constrained_y := Z.max (lower_cutoff args) (Z.min (upper_cutoff args) r) in
  inr constrained_y.

(** Lines 92-101: generate the lookup table values. *)
Definition generate (args : Args) : M (list Z) :=
  for_each (range (length_ args))
    (fun index lut =>
       constrained_y <- lift (sample args index) ;;
       ret (lut ++ [constrained_y])%list)
    [].

(** Lines 106-110: values-only output. *)
Definition print_values (args : Args) (lut : list Z) : M unit :=
  for_each (range (length_ args))
    (fun index _ =>
       (if negb (index =? 0) then print ", " "" else ret tt) ;;
       v <- lift (getitem lut index) ;;
       print (str v) "")
    tt ;;
  print "" newline.

(** Lines 117-141: C++ code output. *)
Definition print_code (args : Args) (lut : list Z) : M unit :=
  print ("const int " ++ name args ++ "_LENGTH{ " ++ str (length_ args) ++ " };") newline ;;
  print ("const " ++ data_type args ++ " " ++ name args ++ "{ ") "" ;;
  for_each (range (length_ args))
    (fun index _ =>
       (if index >? 0 then print ", " "" else ret tt) ;;
       break <- (if wrap args >? 0
                 then m <- lift (py_mod index (wrap args)) ;; ret (m =? 0)
                 else ret false) ;;
       (if break : bool
        then print "" newline ;; print "  " ""
        else ret tt) ;;
       v <- lift (getitem lut index) ;;
       print (str v) "")
    tt ;;
  (if wrap args >? 0 then print "" newline else ret tt) ;;
  print "};" newline.

(** The whole script, after argument parsing. *)
Definition main (args : Args) : M unit :=
  validate args ;;
  lut <- generate args ;;
  if values_only args then print_values args lut else print_code args lut.

(** A run starts with nothing on standard output. *)
Definition run (args : Args) : res unit * string := main args "".

End Script.

(** The exit status of the interpreter: 1 after an uncaught exception. *)
Definition exit_status {A} (r : res A) : Z :=
  match r with
  | inl _ => 1
  | inr _ => 0
  end.

(** The values [f] gives along [l], or the first exception. *)
Fixpoint traverse {A B} (f : A -> res B) (l : list A) : res (list B) :=
  match l with
  | [] => inr []
  | a :: rest => b <~ f a ;; bs <~ traverse f rest ;; inr (b :: bs)
  end.

(** ** The specification's own words

    The definitions below follow the specification, not the script; the
    theorems compare the two. *)

(** Clamping: constraining a value to the closed range [lo, hi]. *)
Definition clamp (v lo hi : Z) : Z :=
  if v <? lo then lo else if hi <? v then hi else v.

(** Step 1 of the sample generator: x = (i / length) * 2 pi, in binary64,
    the operations taken from left to right. *)
Definition spec_angle (args : Args) (i : Z) : res float :=
  fi <~ float_of_int i ;;
  fl <~ float_of_int (length_ args) ;;
  q <~ float_div fi fl ;;
  inr (q * 2 * math_pi)%float.

(** Step 2: y = amplitude * sin(frequency * (x - phase)) + shift. *)
Definition spec_wave (math_sin : float -> res float) (args : Args) (x : float)
  : res float :=
  s <~ math_sin (frequency args * (x - phase args))%float ;;
  inr (amplitude args * s + shift args)%float.

(** Steps 1 to 4 for the entry at index [i]. *)
Definition spec_entry (math_sin : float -> res float) (args : Args) (i : Z)
  : res Z :=
  x <~ spec_angle args i ;;
  y <~ spec_wave math_sin args x ;;
  r <~ py_round y ;;
  inr (clamp r (lower_cutoff args) (upper_cutoff args)).

(** [s.split(sep)] for a separator that is not empty: [skip] counts the
    characters of a separator found at the previous position that are still
    to be passed over, [cur] is the piece being read. *)
Fixpoint split_aux (sep : string) (skip : nat) (cur s : string) : list string :=
  match s with
  | EmptyString => [cur]
  | String c s' =>
      match skip with
      | S k => split_aux sep k cur s'
      | O =>
          if prefix sep s
          then cur :: split_aux sep (String.length sep - 1) "" s'
          else split_aux sep 0 (cur ++ String c "") s'
      end
  end.

Definition split (s sep : string) : list string := split_aux sep 0 "" s.

(** [int(s)] on a piece of text: an optional minus sign and decimal digits;
    None when the text is not an integer (Python raises). *)
Definition int_of_str (s : string) : option Z :=
  option_map Z.of_int (NilZero.int_of_string s).

Fixpoint all_some {A} (l : list (option A)) : option (list A) :=
  match l with
  | [] => Some []
  | Some a :: rest => option_map (cons a) (all_some rest)
  | None :: _ => None
  end.

(** Parsing the values-only line: split on ", ", convert each piece. *)
Definition parse_values (line : string) : option (list Z) :=
  all_some (map int_of_str (split line ", ")).

(** The text the rendering rules give for the values [vs], the first of which
    has index [i]: before each value goes [before i]. *)
Fixpoint render (before : Z -> string) (i : Z) (vs : list Z) : string :=
  match vs with
  | [] => ""
  | v :: rest => before i ++ str v ++ render before (i + 1) rest
  end.

(** Values-only mode: values separated by ", ". *)
Definition separator (i : Z) : string := if i =? 0 then "" else ", ".

(** Declaration mode with wrap width [w] > 0: the separator after the
    previous value, then, at every multiple of [w], a newline and a two-space
    indent. *)
Definition wrapped (w : Z) (i : Z) : string :=
  separator i ++ (if i mod w =? 0 then newline ++ "  " else "").

(** The two lines that open the declaration. *)
Definition header (args : Args) : string :=
  "const int " ++ name args ++ "_LENGTH{ " ++ str (length_ args) ++ " };" ++ newline ++
  "const " ++ data_type args ++ " " ++ name args ++ "{ ".

(** What declaration mode prints before the value at index [i], for any
    wrap width [w]. *)
Definition code_before (w : Z) (i : Z) : string :=
  (if i >? 0 then ", " else "") ++
  (if (w >? 0) && (i mod w =? 0) then newline ++ "  " else "").

(** No comma in [s]. *)
Fixpoint comma_free (s : string) : Prop :=
  match s with
  | EmptyString => True
  | String c s' => c <> ","%char /\ comma_free s'
  end.

(** ** Concrete inputs *)

(** A sine to run the script with: at the quarter-cycle angles the values a
    correctly rounded sine returns, elsewhere a polynomial after reduction
    to [-pi, pi]. *)
Definition sin_poly (x : float) : float :=
  (let x2 := x * x in
   x * (1 - x2 / 6 * (1 - x2 / 20 * (1 - x2 / 42 * (1 - x2 / 72 *
       (1 - x2 / 110 * (1 - x2 / 156)))))))%float.

Definition sin_approx (x : float) : res float :=
  if (x =? 0)%float then inr 0%float
  else if (x =? 0x1.921fb54442d18p+0)%float then inr 1%float
  else if (x =? 0x1.921fb54442d18p+1)%float then inr 0x1.1a62633145c07p-53%float
  else if (x =? 0x1.2d97c7f3321d2p+2)%float then inr (-1)%float
  else if (math_pi <? x)%float then inr (sin_poly (x - 2 * math_pi))
  else inr (sin_poly x).

(** [length] given on the command line, every option at its default. *)
Definition default_args (n : Z) : Args :=
  mkArgs n "byte" "BRIGHTNESS_LUT" 255 1 0 0 0 255 20 false.

Definition with_values_only (args : Args) : Args :=
  mkArgs (length_ args) (data_type args) (name args) (amplitude args)
         (frequency args) (phase args) (shift args) (lower_cutoff args)
         (upper_cutoff args) (wrap args) true.

Definition with_names (dt nm : string) (args : Args) : Args :=
  mkArgs (length_ args) dt nm (amplitude args)
         (frequency args) (phase args) (shift args) (lower_cutoff args)
         (upper_cutoff args) (wrap args) (values_only args).

Definition with_cutoffs (lo hi : Z) (args : Args) : Args :=
  mkArgs (length_ args) (data_type args) (name args) (amplitude args)
         (frequency args) (phase args) (shift args) lo hi
         (wrap args) (values_only args).

Definition with_wrap (w : Z) (args : Args) : Args :=
  mkArgs (length_ args) (data_type args) (name args) (amplitude args)
         (frequency args) (phase args) (shift args) (lower_cutoff args)
         (upper_cutoff args) w (values_only args).

Definition with_amplitude (a : float) (args : Args) : Args :=
  mkArgs (length_ args) (data_type args) (name args) a
         (frequency args) (phase args) (shift args) (lower_cutoff args)
         (upper_cutoff args) (wrap args) (values_only args).

Definition with_shift (sh : float) (args : Args) : Args :=
  mkArgs (length_ args) (data_type args) (name args) (amplitude args)
         (frequency args) (phase args) sh (lower_cutoff args)
         (upper_cutoff args) (wrap args) (values_only args).

(** ** Explicit readings of the two patterns *)

(** The texts a regular expression denotes. *)
Inductive lang : regex -> string -> Prop :=
| lang_empty : lang Empty ""
| lang_class (p : ascii -> bool) (c : ascii) :
    p c = true -> lang (Class p) (String c "")
| lang_seq (r1 r2 : regex) (s1 s2 : string) :
    lang r1 s1 -> lang r2 s2 -> lang (Seq r1 r2) (s1 ++ s2)
| lang_alt_l (r1 r2 : regex) (s : string) : lang r1 s -> lang (Alt r1 r2) s
| lang_alt_r (r1 r2 : regex) (s : string) : lang r2 s -> lang (Alt r1 r2) s
| lang_star_nil (r : regex) : lang (Star r) ""
| lang_star_cons (r : regex) (s1 s2 : string) :
    lang r s1 -> lang (Star r) s2 -> lang (Star r) (s1 ++ s2).

(** Every character of [s] satisfies [p]. *)
Fixpoint all_chars (p : ascii -> bool) (s : string) : bool :=
  match s with
  | EmptyString => true
  | String c s' => p c && all_chars p s'
  end.

(** A bare identifier: a letter or underscore, then letters, digits and
    underscores. *)
Definition is_identifier (s : string) : bool :=
  match s with
  | EmptyString => false
  | String c s' => ident_start c && all_chars ident_char s'
  end.

(** A scan for identifiers with scope operators: [inside] tells whether the
    previous character belongs to an identifier.  A "::" must be followed by
    the first character of an identifier; the text must end inside one. *)
Fixpoint scoped_scan (inside : bool) (s : string) : bool :=
  match s with
  | EmptyString => inside
  | String c s' =>
      if (if inside then ident_char c else ident_start c)
      then scoped_scan true s'
      else if Ascii.eqb c ":"
      then match s' with
           | String c1 (String c2 s'') =>
               Ascii.eqb c1 ":" && ident_start c2 && scoped_scan true s''
           | _ => false
           end
      else false
  end.

Definition is_scoped_identifier (s : string) : bool := scoped_scan false s.

(** The group the scoped pattern repeats: "(?:::)?[a-zA-Z_][a-zA-Z0-9_]*". *)
Definition scoped_group : regex :=
  Seq (Opt (Seq (Chr ":") (Chr ":")))
      (Seq (Class ident_start) (Star (Class ident_char))).

(** ** Counting lines *)

(** How many times the character [c] occurs in [s]. *)
Fixpoint occurrences (c : ascii) (s : string) : nat :=
  match s with
  | EmptyString => O
  | String d s' => ((if Ascii.eqb c d then 1 else 0) + occurrences c s')%nat
  end.

(** The number of newlines in a text. *)
Definition newlines (s : string) : Z := Z.of_nat (occurrences (ascii_of_nat 10) s).

(** * Properties *)

(** ** Text *)

Lemma append_assoc (a b c : string) : (a ++ b) ++ c = a ++ (b ++ c).
Proof. induction a as [|x a IH]; simpl; [reflexivity | now rewrite IH]. Qed.

Lemma append_nil_r (a : string) : a ++ "" = a.
Proof. induction a as [|x a IH]; simpl; [reflexivity | now rewrite IH]. Qed.

(** Texts built with [++] in right-nested form. *)
Ltac norm_text :=
  cbv beta iota delta [negb andb newline];
  repeat (progress (rewrite ?append_assoc, ?append_nil_r; cbn [append])).

Lemma append_inv_head (a b c : string) : a ++ b = a ++ c -> b = c.
Proof. induction a as [|x a IH]; simpl; intros H; [assumption | injection H; auto]. Qed.

(** ** Lists, ranges and [traverse] *)

Lemma range_length (n : Z) : List.length (range n) = Z.to_nat n.
Proof. unfold range. now rewrite length_map, length_seq. Qed.

Lemma range_nth (n i : Z) :
  0 <= i < n -> nth_error (range n) (Z.to_nat i) = Some i.
Proof.
  intros Hi. unfold range.
  rewrite nth_error_map, nth_error_seq.
  destruct (Nat.ltb_spec (Z.to_nat i) (Z.to_nat n)) as [_|Hge]; [|lia].
  simpl. f_equal. lia.
Qed.

Lemma range_nonpos (n : Z) : n <= 0 -> range n = [].
Proof. intros Hn. unfold range. now replace (Z.to_nat n) with O by lia. Qed.

Section Traverse.

Context {A B : Type} (f : A -> res B).

Lemma traverse_Forall2 (l : list A) :
  forall vs, traverse f l = inr vs -> Forall2 (fun a v => f a = inr v) l vs.
Proof.
  induction l as [|a l IH]; simpl; intros vs H.
  - injection H as <-. constructor.
  - destruct (f a) as [e|b] eqn:Ha; simpl in H; [discriminate|].
    destruct (traverse f l) as [e|bs]; simpl in H; [discriminate|].
    injection H as <-. constructor; auto.
Qed.

Lemma traverse_total (l : list A) :
  Forall (fun a => exists v, f a = inr v) l -> exists vs, traverse f l = inr vs.
Proof.
  induction 1 as [|a l [v Hv] _ [vs Hvs]]; simpl.
  - now exists [].
  - rewrite Hv, Hvs. simpl. now exists (v :: vs).
Qed.

End Traverse.

Lemma Forall2_nth {A B} (R : A -> B -> Prop) (l : list A) (vs : list B) :
  Forall2 R l vs ->
  forall k a, nth_error l k = Some a -> exists v, nth_error vs k = Some v /\ R a v.
Proof.
  induction 1 as [|a0 v0 l vs HR _ IH]; intros k a Hk.
  - destruct k; discriminate.
  - destruct k as [|k]; simpl in *.
    + injection Hk as <-. eauto.
    + eauto.
Qed.

(** ** Validation *)

(** What [validate] does, case by case; it never prints. *)
Lemma validate_cases (args : Args) (out : string) :
  validate args out =
  (if negb (values_only args) &&
      negb (re_match regex_cpp_identifier_with_scope (data_type args))
   then inl (ValueError "--data-type musdt specify a valid C++ type identifier.")
   else if negb (values_only args) &&
           negb (re_match regex_cpp_identifier (name args))
   then inl (ValueError "--name must specify a valid C++ variable name.")
   else if lower_cutoff args >? upper_cutoff args
   then inl (ValueError "--lower-cutoff must not be greater than --upper-cutoff.")
   else inr tt, out).
Proof.
  unfold validate, bind, raise, ret.
  destruct (values_only args); simpl.
  - destruct (lower_cutoff args >? upper_cutoff args); reflexivity.
  - destruct (re_match regex_cpp_identifier_with_scope (data_type args)); simpl;
      [|reflexivity].
    destruct (re_match regex_cpp_identifier (name args)); simpl; [|reflexivity].
    destruct (lower_cutoff args >? upper_cutoff args); reflexivity.
Qed.

Lemma validate_ok_cutoffs (args : Args) (out : string) :
  fst (validate args out) = inr tt -> lower_cutoff args <= upper_cutoff args.
Proof.
  rewrite validate_cases. simpl.
  destruct (_ && _); [discriminate|].
  destruct (_ && _); [discriminate|].
  destruct (Z.gtb_spec (lower_cutoff args) (upper_cutoff args)); [discriminate|].
  intros _. lia.
Qed.

Lemma validate_ok_out (args : Args) (out : string) :
  fst (validate args out) = inr tt -> validate args out = (inr tt, out).
Proof. rewrite validate_cases. simpl. now intros ->. Qed.

(** ** Sample generation *)

Section Generation.

Variable math_sin : float -> res float.

(** The loop appends to [lut] the values of [sample] along the indices,
    and prints nothing. *)
Lemma generate_loop (args : Args) (idxs : list Z) :
  forall (acc : list Z) (out : string),
    for_each idxs
      (fun index lut =>
         constrained_y <- lift (sample math_sin args index) ;;
         ret (lut ++ [constrained_y])%list)
      acc out
    = (vs <~ traverse (sample math_sin args) idxs ;; inr (acc ++ vs)%list, out).
Proof.
  induction idxs as [|i idxs IH]; intros acc out; simpl.
  - unfold ret. now rewrite app_nil_r.
  - unfold bind at 1. unfold bind at 1. unfold lift at 1.
    destruct (sample math_sin args i) as [e|v]; simpl; [reflexivity|].
    unfold ret at 1. rewrite IH.
    destruct (traverse (sample math_sin args) idxs) as [e|vs]; simpl;
      [reflexivity|].
    now rewrite <- app_assoc.
Qed.

Lemma generate_traverse (args : Args) (out : string) :
  generate math_sin args out
  = (traverse (sample math_sin args) (range (length_ args)), out).
Proof.
  unfold generate. rewrite generate_loop.
  now destruct (traverse _ _).
Qed.

Lemma generate_inv (args : Args) (lut : list Z) (out out' : string) :
  generate math_sin args out = (inr lut, out') ->
  out' = out /\
  Forall2 (fun i v => sample math_sin args i = inr v) (range (length_ args)) lut.
Proof.
  rewrite generate_traverse. intros H. injection H as H <-.
  split; [reflexivity|]. now apply traverse_Forall2.
Qed.

Lemma generate_entry (args : Args) (lut : list Z) (out out' : string) (i : Z) :
  generate math_sin args out = (inr lut, out') ->
  0 <= i < length_ args ->
  exists v, nth_error lut (Z.to_nat i) = Some v /\ sample math_sin args i = inr v.
Proof.
  intros H Hi. apply generate_inv in H as [_ H].
  apply (Forall2_nth _ _ _ H). now apply range_nth.
Qed.

Lemma generate_length (args : Args) (lut : list Z) (out out' : string) :
  generate math_sin args out = (inr lut, out') ->
  List.length lut = Z.to_nat (length_ args).
Proof.
  intros H. apply generate_inv in H as [_ H].
  apply Forall2_length in H. now rewrite <- H, range_length.
Qed.

Lemma sample_within (args : Args) (i v : Z) :
  lower_cutoff args <= upper_cutoff args ->
  sample math_sin args i = inr v ->
  lower_cutoff args <= v <= upper_cutoff args.
Proof.
  intros Hc. unfold sample, rbind.
  destruct (float_of_int i); [discriminate|].
  destruct (float_of_int (length_ args)); [discriminate|].
  destruct (float_div _ _); [discriminate|].
  destruct (math_sin _); [discriminate|].
  destruct (py_round _); [discriminate|].
  intros H. injection H as <-. lia.
Qed.

Lemma clamp_max_min (v lo hi : Z) :
  lo <= hi -> Z.max lo (Z.min hi v) = clamp v lo hi.
Proof.
  intros H. unfold clamp.
  destruct (Z.ltb_spec v lo); [lia|].
  destruct (Z.ltb_spec hi v); lia.
Qed.

Lemma sample_spec_entry (args : Args) (i : Z) :
  lower_cutoff args <= upper_cutoff args ->
  sample math_sin args i = spec_entry math_sin args i.
Proof.
  intros Hc. unfold sample, spec_entry, spec_angle, spec_wave, rbind.
  destruct (float_of_int i); [reflexivity|].
  destruct (float_of_int (length_ args)); [reflexivity|].
  destruct (float_div _ _); [reflexivity|].
  destruct (math_sin _); [reflexivity|].
  destruct (py_round _); [reflexivity|].
  now rewrite clamp_max_min.
Qed.

End Generation.

(** C1. For every configuration that passes validation and every index [i]
    in [0, length), the [i]-th entry of the generated sample sequence lies
    within [lower cutoff, upper cutoff], both ends included. *)
Theorem sample_sequence_within_cutoffs
    (math_sin : float -> res float) (args : Args) (lut : list Z)
    (out out' : string) :
  fst (validate args "") = inr tt ->
  generate math_sin args out = (inr lut, out') ->
  forall i, 0 <= i < length_ args ->
    exists v, nth_error lut (Z.to_nat i) = Some v /\
              lower_cutoff args <= v <= upper_cutoff args.
Proof.
  intros Hval Hgen i Hi.
  apply validate_ok_cutoffs in Hval.
  destruct (generate_entry _ _ _ _ _ i Hgen Hi) as [v [Hnth Hv]].
  exists v. split; [assumption|].
  now apply (sample_within math_sin args i).
Qed.

Lemma sample_sequence_within_cutoffs_witness :
  generate sin_approx (default_args 4) "" = (inr [0; 255; 0; 0], "") /\
  exists v, nth_error [0; 255; 0; 0] (Z.to_nat 1) = Some v /\ 0 <= v <= 255.
Proof.
  split; [vm_compute; reflexivity|].
  apply (sample_sequence_within_cutoffs sin_approx (default_args 4)
           [0; 255; 0; 0] "" "").
  - vm_compute. reflexivity.
  - vm_compute. reflexivity.
  - simpl. lia.
Defined.

(** C2. For every valid configuration with length > 0 and every index [i] in
    [0, length), the [i]-th entry of the sample sequence is
    clamp(round(amplitude * sin(frequency * (x - phase)) + shift), lower
    cutoff, upper cutoff) with x = (i / length) * 2 pi: a function of the
    index and the configuration alone. *)
Theorem sample_sequence_entry_formula
    (math_sin : float -> res float) (args : Args) (lut : list Z)
    (out out' : string) :
  fst (validate args "") = inr tt ->
  0 < length_ args ->
  generate math_sin args out = (inr lut, out') ->
  forall i, 0 <= i < length_ args ->
    exists v, nth_error lut (Z.to_nat i) = Some v /\
              spec_entry math_sin args i = inr v.
Proof.
  intros Hval _ Hgen i Hi.
  apply validate_ok_cutoffs in Hval.
  destruct (generate_entry _ _ _ _ _ i Hgen Hi) as [v [Hnth Hv]].
  exists v. split; [assumption|].
  now rewrite <- sample_spec_entry.
Qed.

Lemma sample_sequence_entry_formula_witness :
  exists v, nth_error [0; 255; 0; 0] (Z.to_nat 1) = Some v /\
            spec_entry sin_approx (default_args 4) 1 = inr v.
Proof.
  apply (sample_sequence_entry_formula sin_approx (default_args 4)
           [0; 255; 0; 0] "" "").
  - vm_compute. reflexivity.
  - simpl. lia.
  - vm_compute. reflexivity.
  - simpl. lia.
Defined.

(** C3. For every valid configuration the sample sequence has exactly
    [length] entries when length > 0 and is empty when length <= 0.  The
    sequence is produced, with that many entries, as soon as no sample
    raises; with length <= 0 it always is. *)
Theorem sample_sequence_length
    (math_sin : float -> res float) (args : Args) :
  fst (validate args "") = inr tt ->
  (forall lut out out',
      generate math_sin args out = (inr lut, out') ->
      (0 < length_ args -> Z.of_nat (List.length lut) = length_ args) /\
      (length_ args <= 0 -> lut = [])) /\
  (length_ args <= 0 -> forall out, generate math_sin args out = (inr [], out)) /\
  ((forall i, 0 <= i < length_ args -> exists v, sample math_sin args i = inr v) ->
   forall out, exists lut,
     generate math_sin args out = (inr lut, out) /\
     List.length lut = Z.to_nat (length_ args)).
Proof.
  intros _. split; [|split].
  - intros lut out out' Hgen.
    apply generate_length in Hgen. split; intros Hn.
    + rewrite Hgen. apply Z2Nat.id. lia.
    + destruct lut; [reflexivity|]. simpl in Hgen.
      destruct (length_ args); simpl in Hgen; (discriminate || lia).
  - intros Hn out. rewrite generate_traverse, range_nonpos by assumption.
    reflexivity.
  - intros Hall out.
    destruct (traverse_total (sample math_sin args) (range (length_ args)))
      as [lut Hlut].
    + apply Forall_forall. intros i Hin.
      apply Hall. unfold range in Hin.
      apply in_map_iff in Hin as [k [<- Hk]].
      apply in_seq in Hk. lia.
    + exists lut. rewrite generate_traverse, Hlut.
      split; [reflexivity|].
      apply (generate_length math_sin args lut out out).
      now rewrite generate_traverse, Hlut.
Qed.

Lemma sample_sequence_length_witness :
  (forall lut out out',
      generate sin_approx (default_args 4) out = (inr lut, out') ->
      (0 < 4 -> Z.of_nat (List.length lut) = 4) /\ (4 <= 0 -> lut = [])) /\
  (4 <= 0 ->
   forall out, generate sin_approx (default_args 4) out = (inr [], out)) /\
  ((forall i, 0 <= i < 4 ->
      exists v, sample sin_approx (default_args 4) i = inr v) ->
   forall out, exists lut,
     generate sin_approx (default_args 4) out = (inr lut, out) /\
     List.length lut = 4%nat).
Proof.
  apply (sample_sequence_length sin_approx (default_args 4)).
  vm_compute. reflexivity.
Defined.

(** ** Rendering *)

Lemma getitem_nth (l : list Z) (k : nat) (v : Z) :
  nth_error l k = Some v -> getitem l (Z.of_nat k) = inr v.
Proof.
  intros H. unfold getitem.
  assert (Hk : (Z.of_nat k <? 0) = false) by (apply Z.ltb_ge; lia).
  rewrite Hk. cbv zeta. rewrite Hk.
  now rewrite Nat2Z.id, H.
Qed.

Lemma render_ext (f g : Z -> string) (vs : list Z) :
  forall i, (forall j, i <= j -> f j = g j) -> render f i vs = render g i vs.
Proof.
  induction vs as [|v vs IH]; intros i H; simpl; [reflexivity|].
  rewrite (H i) by lia. rewrite (IH (i + 1)); [reflexivity|].
  intros j Hj. apply H. lia.
Qed.

(** A loop that prints, for each index, some text and then the value at that
    index prints the rendering of the values. *)
Lemma print_loop (before : Z -> string) (body : Z -> unit -> M unit)
    (lut : list Z) :
  (forall i v out,
      getitem lut i = inr v -> body i tt out = (inr tt, out ++ before i ++ str v)) ->
  forall (suf pre : list Z) (out : string),
    lut = (pre ++ suf)%list ->
    for_each (map Z.of_nat (seq (List.length pre) (List.length suf))) body tt out
    = (inr tt, out ++ render before (Z.of_nat (List.length pre)) suf).
Proof.
  intros Hbody. induction suf as [|v suf IH]; intros pre out Hlut; simpl.
  - unfold ret. now rewrite append_nil_r.
  - unfold bind. rewrite (Hbody _ v).
    + specialize (IH (pre ++ [v])%list (out ++ before (Z.of_nat (List.length pre)) ++ str v)).
      rewrite length_app in IH. simpl in IH.
      replace (List.length pre + 1)%nat with (S (List.length pre)) in IH by lia.
      rewrite IH by (now rewrite <- app_assoc).
      rewrite Nat2Z.inj_succ, <- Z.add_1_r.
      now rewrite !append_assoc.
    + apply getitem_nth. subst lut.
      rewrite nth_error_app2 by lia. now rewrite Nat.sub_diag.
Qed.

Lemma print_loop_range (before : Z -> string) (body : Z -> unit -> M unit)
    (lut : list Z) (n : Z) (out : string) :
  (forall i v out,
      getitem lut i = inr v -> body i tt out = (inr tt, out ++ before i ++ str v)) ->
  List.length lut = Z.to_nat n ->
  for_each (range n) body tt out = (inr tt, out ++ render before 0 lut).
Proof.
  intros Hbody Hlen. unfold range. rewrite <- Hlen.
  now apply (print_loop before body lut Hbody lut []).
Qed.

Section Rendering.

Variable math_sin : float -> res float.

Lemma print_values_out (args : Args) (lut : list Z) (out : string) :
  List.length lut = Z.to_nat (length_ args) ->
  print_values args lut out = (inr tt, out ++ render separator 0 lut ++ newline).
Proof.
  intros Hlen. unfold print_values. unfold bind at 1.
  rewrite (print_loop_range separator _ lut); [| |assumption].
  - unfold print. norm_text. reflexivity.
  - intros i v o Hv. unfold bind, lift, print, ret, separator. rewrite Hv.
    destruct (i =? 0); norm_text; reflexivity.
Qed.

Lemma print_code_out (args : Args) (lut : list Z) (out : string) :
  List.length lut = Z.to_nat (length_ args) ->
  print_code args lut out
  = (inr tt,
     out ++ header args ++ render (code_before (wrap args)) 0 lut ++
     (if wrap args >? 0 then newline else "") ++ "};" ++ newline).
Proof.
  intros Hlen. unfold print_code.
  unfold bind at 1. unfold print at 1.
  unfold bind at 1. unfold print at 1.
  unfold bind at 1.
  rewrite (print_loop_range (code_before (wrap args)) _ lut); [| |assumption].
  - unfold bind, print, ret, header.
    destruct (wrap args >? 0); norm_text; reflexivity.
  - intros i v o Hv. unfold code_before, py_mod.
    unfold bind, lift, print, ret. rewrite Hv.
    destruct (Z.gtb_spec (wrap args) 0) as [Hw|Hw]; simpl.
    + destruct (Z.eqb_spec (wrap args) 0) as [H0|_]; [lia|].
      destruct (i >? 0), (i mod wrap args =? 0); norm_text; reflexivity.
    + destruct (i >? 0); norm_text; reflexivity.
Qed.

(** A run whose validation passes and whose table is generated prints the
    rendering of the table, in the mode asked for, and ends normally. *)
Lemma run_rendering (args : Args) (lut : list Z) (out out' : string) :
  fst (validate args "") = inr tt ->
  generate math_sin args out = (inr lut, out') ->
  run math_sin args
  = (inr tt,
     if values_only args
     then render separator 0 lut ++ newline
     else header args ++ render (code_before (wrap args)) 0 lut ++
          (if wrap args >? 0 then newline else "") ++ "};" ++ newline).
Proof.
  intros Hval Hgen.
  pose proof (generate_length _ _ _ _ _ Hgen) as Hlen.
  rewrite generate_traverse in Hgen. injection Hgen as Hgen _.
  unfold run, main, bind.
  rewrite (validate_ok_out _ _ Hval), generate_traverse, Hgen.
  destruct (values_only args).
  - now rewrite print_values_out.
  - now rewrite print_code_out.
Qed.

End Rendering.

(** ** Validation errors *)

(** An error raised by validation ends the run before anything is printed. *)
Lemma run_validation_error
    (math_sin : float -> res float) (args : Args) (e : exn) :
  validate args "" = (inl e, "") -> run math_sin args = (inl e, "").
Proof. intros H. unfold run, main, bind. now rewrite H. Qed.

(** C5. Whenever the lower cutoff exceeds the upper cutoff, in either mode,
    the run ends in a validation error with a descriptive message, the exit
    status is not zero and nothing is written to standard output.  The
    message is the one about the cutoffs unless an identifier check of
    declaration mode fails first. *)
Theorem inverted_cutoffs_rejected
    (math_sin : float -> res float) (args : Args) :
  lower_cutoff args > upper_cutoff args ->
  exists msg,
    run math_sin args = (inl (ValueError msg), "") /\
    exit_status (fst (run math_sin args)) <> 0 /\
    (msg = "--data-type musdt specify a valid C++ type identifier." \/
     msg = "--name must specify a valid C++ variable name." \/
     msg = "--lower-cutoff must not be greater than --upper-cutoff.") /\
    (values_only args = true \/
     (re_match regex_cpp_identifier_with_scope (data_type args) = true /\
      re_match regex_cpp_identifier (name args) = true) ->
     msg = "--lower-cutoff must not be greater than --upper-cutoff.").
Proof.
  intros Hc.
  assert (Hgt : (lower_cutoff args >? upper_cutoff args) = true)
    by (apply Z.gtb_lt; lia).
  pose proof (validate_cases args "") as Hval. rewrite Hgt in Hval.
  destruct (values_only args); simpl in Hval;
    [|destruct (re_match regex_cpp_identifier_with_scope (data_type args));
      simpl in Hval;
      [destruct (re_match regex_cpp_identifier (name args)); simpl in Hval|]];
    eexists; rewrite (run_validation_error _ _ _ Hval);
    (split; [reflexivity|split; [simpl; lia|split; [auto|]]]).
  - reflexivity.
  - reflexivity.
  - intros [H|[_ H]]; discriminate.
  - intros [H|[H _]]; discriminate.
Qed.

Lemma inverted_cutoffs_rejected_witness :
  exists msg,
    run sin_approx (with_cutoffs 10 5 (default_args 4))
    = (inl (ValueError msg), "") /\
    exit_status (fst (run sin_approx (with_cutoffs 10 5 (default_args 4)))) <> 0 /\
    (msg = "--data-type musdt specify a valid C++ type identifier." \/
     msg = "--name must specify a valid C++ variable name." \/
     msg = "--lower-cutoff must not be greater than --upper-cutoff.") /\
    (false = true \/
     (re_match regex_cpp_identifier_with_scope "byte" = true /\
      re_match regex_cpp_identifier "BRIGHTNESS_LUT" = true) ->
     msg = "--lower-cutoff must not be greater than --upper-cutoff.").
Proof.
  apply (inverted_cutoffs_rejected sin_approx (with_cutoffs 10 5 (default_args 4))).
  simpl. lia.
Defined.

Lemma run_names_irrelevant
    (math_sin : float -> res float) (args : Args) (dt nm : string) :
  values_only args = true ->
  run math_sin (with_names dt nm args) = run math_sin args.
Proof.
  destruct args as [n dt0 nm0 a f p s lo hi w vo]. simpl. intros ->.
  unfold run, main, bind. rewrite !validate_cases. simpl.
  destruct (lo >? hi); reflexivity.
Qed.

(** C6. The data-type and array-name tokens are checked only when not in
    values-only mode.  In declaration mode a data type that the scoped
    pattern does not accept ends the run in the data-type validation error,
    and an array name that the identifier pattern does not accept ends it in
    the name validation error, nothing being printed; "1bad" is such a data
    type.  With the values-only flag the two tokens are never looked at:
    validation passes whatever they are (the cutoffs being in order), and
    the run is the one any other tokens give. *)
Theorem identifiers_checked_only_in_declaration_mode
    (math_sin : float -> res float) (args : Args) :
  (values_only args = false ->
   re_match regex_cpp_identifier_with_scope (data_type args) = false ->
   run math_sin args
   = (inl (ValueError "--data-type musdt specify a valid C++ type identifier."),
      "")) /\
  (values_only args = false ->
   re_match regex_cpp_identifier_with_scope (data_type args) = true ->
   re_match regex_cpp_identifier (name args) = false ->
   run math_sin args
   = (inl (ValueError "--name must specify a valid C++ variable name."), "")) /\
  (values_only args = false ->
   re_match regex_cpp_identifier_with_scope (data_type args) = true ->
   re_match regex_cpp_identifier (name args) = true ->
   lower_cutoff args <= upper_cutoff args ->
   validate args "" = (inr tt, "")) /\
  re_match regex_cpp_identifier_with_scope "1bad" = false /\
  (values_only args = false ->
   data_type args = "1bad" ->
   run math_sin args
   = (inl (ValueError "--data-type musdt specify a valid C++ type identifier."),
      "")) /\
  (values_only args = true ->
   forall dt nm,
     run math_sin (with_names dt nm args) = run math_sin args) /\
  (values_only args = true ->
   lower_cutoff args <= upper_cutoff args ->
   forall dt nm, validate (with_names dt nm args) "" = (inr tt, "")).
Proof.
  assert (Htype : values_only args = false ->
                  re_match regex_cpp_identifier_with_scope (data_type args) = false ->
                  run math_sin args
                  = (inl (ValueError
                            "--data-type musdt specify a valid C++ type identifier."),
                     "")).
  { intros Hv Hd. apply run_validation_error.
    rewrite validate_cases, Hv, Hd. reflexivity. }
  repeat apply conj.
  - exact Htype.
  - intros Hv Hd Hn. apply run_validation_error.
    rewrite validate_cases, Hv, Hd, Hn. reflexivity.
  - intros Hv Hd Hn Hc. rewrite validate_cases, Hv, Hd, Hn. simpl.
    destruct (Z.gtb_spec (lower_cutoff args) (upper_cutoff args)); [lia|].
    reflexivity.
  - reflexivity.
  - intros Hv Hd. apply Htype; [assumption|]. rewrite Hd. reflexivity.
  - intros Hv dt nm. now apply run_names_irrelevant.
  - intros Hv Hc dt nm. rewrite validate_cases. simpl. rewrite Hv. simpl.
    destruct (Z.gtb_spec (lower_cutoff args) (upper_cutoff args)); [lia|].
    reflexivity.
Qed.

Lemma identifiers_checked_only_in_declaration_mode_witness :
  run sin_approx (with_names "1bad" "LUT" (default_args 4))
  = (inl (ValueError "--data-type musdt specify a valid C++ type identifier."),
     "") /\
  run sin_approx (with_names "ns::foo" "hello world!" (default_args 4))
  = (inl (ValueError "--name must specify a valid C++ variable name."), "") /\
  run sin_approx (with_names "1bad" "hello world!" (with_values_only (default_args 4)))
  = (inr tt, "0, 255, 0, 0" ++ newline) /\
  validate (with_names "1bad" "hello world!" (with_values_only (default_args 4))) ""
  = (inr tt, "").
Proof.
  destruct (identifiers_checked_only_in_declaration_mode sin_approx
              (with_names "1bad" "LUT" (default_args 4)))
    as (Htype & _).
  destruct (identifiers_checked_only_in_declaration_mode sin_approx
              (with_names "ns::foo" "hello world!" (default_args 4)))
    as (_ & Hname & _).
  destruct (identifiers_checked_only_in_declaration_mode sin_approx
              (with_values_only (default_args 4)))
    as (_ & _ & _ & _ & _ & Hrun & Hval).
  split; [|split; [|split]].
  - apply Htype; reflexivity.
  - apply Hname; reflexivity.
  - rewrite (Hrun eq_refl "1bad" "hello world!"). vm_compute. reflexivity.
  - apply Hval; [reflexivity|simpl; lia].
Defined.

(** ** The empty table *)

(** C10. With length 0 and validation passed, the division by the length is
    never evaluated: the loop body, which would raise a division-by-zero
    error at any index, is not run; the run ends normally with status 0
    and, in values-only mode, standard output holds exactly one newline. *)
Theorem empty_table_runs_without_division
    (math_sin : float -> res float) (args : Args) :
  length_ args = 0 ->
  fst (validate args "") = inr tt ->
  (forall i fi, float_of_int i = inr fi ->
     sample math_sin args i = inl (ZeroDivisionError "float division by zero")) /\
  generate math_sin args "" = (inr [], "") /\
  fst (run math_sin args) = inr tt /\
  exit_status (fst (run math_sin args)) = 0 /\
  (values_only args = true -> run math_sin args = (inr tt, newline)).
Proof.
  intros Hlen Hval.
  assert (Hgen : generate math_sin args "" = (inr [], "")).
  { rewrite generate_traverse, Hlen. reflexivity. }
  pose proof (run_rendering math_sin args [] "" "" Hval Hgen) as Hrun.
  split; [|split; [|split; [|split]]].
  - intros i fi Hfi. unfold sample. rewrite Hlen, Hfi. reflexivity.
  - exact Hgen.
  - now rewrite Hrun.
  - now rewrite Hrun.
  - intros Hv. now rewrite Hrun, Hv.
Qed.

Lemma empty_table_runs_without_division_witness :
  (forall i fi, float_of_int i = inr fi ->
     sample sin_approx (with_values_only (default_args 0)) i
     = inl (ZeroDivisionError "float division by zero")) /\
  generate sin_approx (with_values_only (default_args 0)) "" = (inr [], "") /\
  fst (run sin_approx (with_values_only (default_args 0))) = inr tt /\
  exit_status (fst (run sin_approx (with_values_only (default_args 0)))) = 0 /\
  (true = true ->
   run sin_approx (with_values_only (default_args 0)) = (inr tt, newline)).
Proof.
  apply (empty_table_runs_without_division sin_approx
           (with_values_only (default_args 0)));
    reflexivity.
Defined.

(** ** Declaration mode *)

Lemma code_before_wrapped (w : Z) :
  0 < w -> forall j, 0 <= j -> code_before w j = wrapped w j.
Proof.
  intros Hw j Hj. unfold code_before, wrapped, separator.
  destruct (Z.gtb_spec w 0) as [_|Hle]; [|lia]. simpl.
  destruct (Z.gtb_spec j 0), (Z.eqb_spec j 0); (reflexivity || lia).
Qed.

(** C8. In declaration mode with a wrap width above 0, the text after the
    opening brace is the values, each preceded by ", " unless it is the
    first and then, at every index that is a multiple of the wrap width
    (index 0 included), by a newline and a two-space indent; a newline
    follows the last value, then the closing "};". *)
Theorem declaration_wrapping
    (math_sin : float -> res float) (args : Args) (lut : list Z) :
  values_only args = false ->
  0 < wrap args ->
  fst (validate args "") = inr tt ->
  generate math_sin args "" = (inr lut, "") ->
  run math_sin args
  = (inr tt,
     header args ++ render (wrapped (wrap args)) 0 lut ++
     newline ++ "};" ++ newline) /\
  wrapped (wrap args) 0 = newline ++ "  " /\
  (forall i, 0 < i -> i mod wrap args = 0 ->
     wrapped (wrap args) i = ", " ++ newline ++ "  ") /\
  (forall i, 0 < i -> i mod wrap args <> 0 -> wrapped (wrap args) i = ", ").
Proof.
  intros Hv Hw Hval Hgen. split; [|split; [|split]].
  - rewrite (run_rendering math_sin args lut "" "" Hval Hgen), Hv.
    rewrite (render_ext _ (wrapped (wrap args)))
      by (intros j Hj; now apply code_before_wrapped).
    destruct (Z.gtb_spec (wrap args) 0) as [_|Hle]; [reflexivity|lia].
  - unfold wrapped, separator. now rewrite Z.mod_0_l by lia.
  - intros i Hi Hm. unfold wrapped, separator. rewrite Hm.
    destruct (Z.eqb_spec i 0); [lia|reflexivity].
  - intros i Hi Hm. unfold wrapped, separator.
    destruct (Z.eqb_spec i 0); [lia|].
    destruct (Z.eqb_spec (i mod wrap args) 0); [contradiction|reflexivity].
Qed.

Lemma declaration_wrapping_witness :
  run sin_approx (with_wrap 2 (default_args 4))
  = (inr tt,
     header (with_wrap 2 (default_args 4)) ++
     render (wrapped 2) 0 [0; 255; 0; 0] ++ newline ++ "};" ++ newline) /\
  wrapped 2 0 = newline ++ "  " /\
  (forall i, 0 < i -> i mod 2 = 0 -> wrapped 2 i = ", " ++ newline ++ "  ") /\
  (forall i, 0 < i -> i mod 2 <> 0 -> wrapped 2 i = ", ").
Proof.
  apply (declaration_wrapping sin_approx (with_wrap 2 (default_args 4))
           [0; 255; 0; 0]).
  - reflexivity.
  - simpl. lia.
  - vm_compute. reflexivity.
  - vm_compute. reflexivity.
Defined.

(** C9. In declaration mode with length 3, wrap width 0, name "LUT" and data
    type "int" the output is the line "const int LUT_LENGTH{ 3 };" and then
    the line "const int LUT{ v0, v1, v2};": the three values on the line of
    the opening brace, a space after the brace, ", " between values, no
    newline or indent among them and no space before the closing. *)
Theorem declaration_unwrapped_three
    (math_sin : float -> res float) (args : Args) (lut : list Z) :
  length_ args = 3 ->
  wrap args = 0 ->
  name args = "LUT" ->
  data_type args = "int" ->
  values_only args = false ->
  fst (validate args "") = inr tt ->
  generate math_sin args "" = (inr lut, "") ->
  exists v0 v1 v2,
    lut = [v0; v1; v2] /\
    run math_sin args
    = (inr tt,
       "const int LUT_LENGTH{ 3 };" ++ newline ++
       "const int LUT{ " ++ str v0 ++ ", " ++ str v1 ++ ", " ++ str v2 ++ "};" ++
       newline).
Proof.
  intros Hn Hw Hname Htype Hv Hval Hgen.
  pose proof (generate_length _ _ _ _ _ Hgen) as Hlen. rewrite Hn in Hlen.
  destruct lut as [|v0 [|v1 [|v2 [|v3 lut]]]]; try discriminate Hlen.
  exists v0, v1, v2. split; [reflexivity|].
  rewrite (run_rendering math_sin args _ "" "" Hval Hgen), Hv.
  unfold header. rewrite Hn, Hw, Hname, Htype.
  cbn [render]. unfold code_before. simpl.
  norm_text. reflexivity.
Qed.

Lemma declaration_unwrapped_three_witness :
  exists v0 v1 v2,
    [0; 221; 0] = [v0; v1; v2] /\
    run sin_approx (with_names "int" "LUT" (with_wrap 0 (default_args 3)))
    = (inr tt,
       "const int LUT_LENGTH{ 3 };" ++ newline ++
       "const int LUT{ " ++ str v0 ++ ", " ++ str v1 ++ ", " ++ str v2 ++ "};" ++
       newline).
Proof.
  apply (declaration_unwrapped_three sin_approx
           (with_names "int" "LUT" (with_wrap 0 (default_args 3))) [0; 221; 0]);
    reflexivity.
Defined.

(** ** The quarter-cycle scenario *)

(** One sample, stage by stage. *)
Lemma sample_stages
    (math_sin : float -> res float) (args : Args) (i : Z)
    (fi fl q s : float) (r : Z) :
  float_of_int i = inr fi ->
  float_of_int (length_ args) = inr fl ->
  float_div fi fl = inr q ->
  math_sin (frequency args * (q * 2 * math_pi - phase args))%float = inr s ->
  py_round (amplitude args * s + shift args)%float = inr r ->
  sample math_sin args i
  = inr (Z.max (lower_cutoff args) (Z.min (upper_cutoff args) r)).
Proof.
  intros Hfi Hfl Hq Hs Hr. unfold sample.
  rewrite Hfi, Hfl. simpl. rewrite Hq. simpl. rewrite Hs. simpl.
  now rewrite Hr.
Qed.

(** C7. With length 4, amplitude 255, frequency 1, phase 0, shift 0, the
    default cutoffs 0 and 255 and the values-only flag, the samples are
    taken at the angles 0, pi/2, pi and 3 pi/2 and, for a sine that is 0, 1
    and -1 at the first, second and fourth of them and 0 (of either sign) or
    the binary64 sine of [math.pi] at the third, the line written is exactly
    "0, 255, 0, 0". *)
Theorem quarter_cycle_scenario
    (math_sin : float -> res float) (dt nm : string) (w : Z) (s2 : float) :
  let args := mkArgs 4 dt nm 255 1 0 0 0 255 w true in
  math_sin 0%float = inr 0%float ->
  math_sin (math_pi / 2)%float = inr 1%float ->
  math_sin math_pi = inr s2 ->
  s2 = 0%float \/ s2 = (-0)%float \/ s2 = 0x1.1a62633145c07p-53%float ->
  math_sin (3 * math_pi / 2)%float = inr (-1)%float ->
  (spec_angle args 0 = inr 0%float /\
   spec_angle args 1 = inr (math_pi / 2)%float /\
   spec_angle args 2 = inr math_pi /\
   spec_angle args 3 = inr (3 * math_pi / 2)%float) /\
  generate math_sin args "" = (inr [0; 255; 0; 0], "") /\
  run math_sin args = (inr tt, "0, 255, 0, 0" ++ newline).
Proof.
  intros args H0 H1 H2 Hs2 H3.
  assert (E0 : sample math_sin args 0 = inr 0).
  { apply (sample_stages math_sin args 0 0 4 0 0 0);
      try reflexivity. exact H0. }
  assert (E1 : sample math_sin args 1 = inr 255).
  { apply (sample_stages math_sin args 1 1 4 0.25 1 255);
      try reflexivity. exact H1. }
  assert (E2 : sample math_sin args 2 = inr 0).
  { apply (sample_stages math_sin args 2 2 4 0.5 s2 0);
      try reflexivity; [exact H2|].
    destruct Hs2 as [->|[->| ->]]; reflexivity. }
  assert (E3 : sample math_sin args 3 = inr 0).
  { apply (sample_stages math_sin args 3 3 4 0.75 (-1) (-255));
      try reflexivity. exact H3. }
  assert (Hgen : generate math_sin args "" = (inr [0; 255; 0; 0], "")).
  { rewrite generate_traverse.
    change (range (length_ args)) with [0; 1; 2; 3].
    cbn [traverse]. now rewrite E0, E1, E2, E3. }
  split; [|split].
  - repeat split; reflexivity.
  - exact Hgen.
  - now rewrite (run_rendering math_sin args _ "" "" eq_refl Hgen).
Qed.

Lemma quarter_cycle_scenario_witness :
  (spec_angle (with_values_only (default_args 4)) 0 = inr 0%float /\
   spec_angle (with_values_only (default_args 4)) 1 = inr (math_pi / 2)%float /\
   spec_angle (with_values_only (default_args 4)) 2 = inr math_pi /\
   spec_angle (with_values_only (default_args 4)) 3
   = inr (3 * math_pi / 2)%float) /\
  generate sin_approx (with_values_only (default_args 4)) ""
  = (inr [0; 255; 0; 0], "") /\
  run sin_approx (with_values_only (default_args 4))
  = (inr tt, "0, 255, 0, 0" ++ newline).
Proof.
  apply (quarter_cycle_scenario sin_approx "byte" "BRIGHTNESS_LUT" 20
           0x1.1a62633145c07p-53%float).
  - reflexivity.
  - reflexivity.
  - reflexivity.
  - right. right. reflexivity.
  - reflexivity.
Defined.

(** ** Reading the values-only line back *)

Lemma uint_comma_free (d : Decimal.uint) :
  comma_free (NilEmpty.string_of_uint d).
Proof. induction d; simpl; (exact I || (split; [discriminate|assumption])). Qed.

Lemma str_comma_free (v : Z) : comma_free (str v).
Proof.
  unfold str, NilZero.string_of_int, NilZero.string_of_uint.
  destruct (Z.to_int v) as [d|d].
  - destruct d; try apply uint_comma_free. simpl. split; [discriminate|exact I].
  - split; [discriminate|].
    destruct d; try apply uint_comma_free. simpl. split; [discriminate|exact I].
Qed.

Lemma int_of_str_str (v : Z) : int_of_str (str v) = Some v.
Proof.
  unfold int_of_str, str. rewrite NilZero.isi.
  - simpl. now rewrite DecimalZ.of_to.
  - destruct v; simpl; try discriminate.
    intros H. injection H as H. now apply DecimalPos.Unsigned.to_uint_nonnil in H.
  - destruct v; simpl; try discriminate.
    intros H. injection H as H. now apply DecimalPos.Unsigned.to_uint_nonnil in H.
Qed.

(** A piece without a comma is read whole. *)
Lemma split_piece (p : string) :
  comma_free p ->
  forall cur rest,
    split_aux ", " 0 cur (p ++ rest) = split_aux ", " 0 (cur ++ p) rest.
Proof.
  induction p as [|c p IH]; intros Hp cur rest.
  - now rewrite append_nil_r.
  - destruct Hp as [Hc Hp]. cbn [append split_aux prefix].
    destruct (ascii_dec "," c) as [<-|_]; [now contradiction Hc|].
    rewrite IH by assumption. now rewrite append_assoc.
Qed.

(** A separator ends the piece being read. *)
Lemma split_separator (cur rest : string) :
  split_aux ", " 0 cur (", " ++ rest) = cur :: split_aux ", " 0 "" rest.
Proof. destruct rest; reflexivity. Qed.

Lemma split_render_tail (vs : list Z) :
  forall i cur,
    0 < i ->
    split_aux ", " 0 cur (render separator i vs) = cur :: map str vs.
Proof.
  induction vs as [|v vs IH]; intros i cur Hi; [reflexivity|].
  cbn [render map]. unfold separator at 1.
  destruct (Z.eqb_spec i 0) as [H0|_]; [lia|].
  rewrite split_separator, split_piece by apply str_comma_free.
  now rewrite IH by lia.
Qed.

Lemma split_render (v : Z) (vs : list Z) :
  split (render separator 0 (v :: vs)) ", " = map str (v :: vs).
Proof.
  unfold split. cbn [render map]. unfold separator at 1. simpl (0 =? 0).
  cbn [append]. rewrite split_piece by apply str_comma_free.
  now rewrite split_render_tail by lia.
Qed.

Lemma all_some_int_of_str (vs : list Z) :
  all_some (map int_of_str (map str vs)) = Some vs.
Proof.
  induction vs as [|v vs IH]; [reflexivity|].
  cbn [map all_some]. now rewrite int_of_str_str, IH.
Qed.

Lemma parse_values_render (v : Z) (vs : list Z) :
  parse_values (render separator 0 (v :: vs)) = Some (v :: vs).
Proof.
  unfold parse_values. now rewrite split_render, all_some_int_of_str.
Qed.

Lemma append_newline_inv (line : string) : line ++ newline = newline -> line = "".
Proof.
  destruct line as [|c line]; [reflexivity|].
  simpl. intros H. injection H as _ H. destruct line; discriminate.
Qed.

(** C4, as the script has it: for every valid configuration with length > 0,
    splitting the values-only output line on ", " and converting each piece
    to an integer gives back the sample sequence. *)
Theorem values_only_round_trip
    (math_sin : float -> res float) (args : Args) (lut : list Z) :
  values_only args = true ->
  0 < length_ args ->
  fst (validate args "") = inr tt ->
  generate math_sin args "" = (inr lut, "") ->
  exists line,
    run math_sin args = (inr tt, line ++ newline) /\
    parse_values line = Some lut.
Proof.
  intros Hv Hn Hval Hgen.
  exists (render separator 0 lut). split.
  - now rewrite (run_rendering math_sin args lut "" "" Hval Hgen), Hv.
  - pose proof (generate_length _ _ _ _ _ Hgen) as Hlen.
    destruct lut as [|v vs]; [simpl in Hlen; lia|].
    apply parse_values_render.
Qed.

Lemma values_only_round_trip_witness :
  exists line,
    run sin_approx (with_values_only (default_args 4)) = (inr tt, line ++ newline) /\
    parse_values line = Some [0; 255; 0; 0].
Proof.
  apply (values_only_round_trip sin_approx (with_values_only (default_args 4))
           [0; 255; 0; 0]).
  - reflexivity.
  - simpl. lia.
  - reflexivity.
  - reflexivity.
Defined.

(** C4, as stated, fails for the empty table: with length 0 validation
    passes, the sample sequence is empty and the line written is empty, and
    the empty line splits into one empty piece, which is not an integer. *)
Lemma values_only_round_trip_fails_on_empty_table :
  fst (validate (with_values_only (default_args 0)) "") = inr tt /\
  generate sin_approx (with_values_only (default_args 0)) "" = (inr [], "") /\
  run sin_approx (with_values_only (default_args 0)) = (inr tt, "" ++ newline) /\
  split "" ", " = [""] /\
  int_of_str "" = None /\
  ~ (exists line,
        run sin_approx (with_values_only (default_args 0))
        = (inr tt, line ++ newline) /\
        parse_values line = Some []).
Proof.
  repeat (split; [reflexivity|]).
  intros [line [Hrun Hparse]].
  change (run sin_approx (with_values_only (default_args 0)))
    with (inr tt : res unit, newline) in Hrun.
  injection Hrun as Hline. symmetry in Hline.
  apply append_newline_inv in Hline. subst line. discriminate Hparse.
Qed.

(** ** The identifier patterns on the examples of the script's comments *)

Example scoped_identifier_examples :
  map (re_match regex_cpp_identifier_with_scope)
      ["int"; "::int8_t"; "std::uint16_t"; "blah::::foo"; "1bad"; ""; "a::"]
  = [true; true; true; false; false; false; false].
Proof. reflexivity. Qed.

Example identifier_examples :
  map (re_match regex_cpp_identifier)
      ["blah"; "foo123"; "hello world!"; "_x"; "9lives"; "ns::foo"; ""]
  = [true; true; false; true; false; false; false].
Proof. reflexivity. Qed.

(** "$" also matches just before a newline that ends the text. *)
Example identifier_trailing_newline :
  re_match regex_cpp_identifier ("LUT" ++ newline) = true /\
  re_match regex_cpp_identifier ("LUT" ++ newline ++ newline) = false.
Proof. split; reflexivity. Qed.

(** * Further properties of the script *)

(** ** How a run ends *)

Lemma traverse_error {A B} (f : A -> res B) (l : list A) (e : exn) :
  traverse f l = inl e -> exists a, In a l /\ f a = inl e.
Proof.
  induction l as [|a l IH]; simpl; [discriminate|].
  destruct (f a) as [e0|b] eqn:Ha; simpl.
  - intros H. injection H as <-. exists a. auto.
  - destruct (traverse f l) as [e1|bs]; simpl; [|discriminate].
    intros H. injection H as <-.
    destruct (IH eq_refl) as [a' [Hin Ha']]. exists a'. auto.
Qed.

Lemma range_in (n i : Z) : In i (range n) <-> 0 <= i < n.
Proof.
  unfold range. rewrite in_map_iff. split.
  - intros [k [<- Hk]]. apply in_seq in Hk. lia.
  - intros Hi. exists (Z.to_nat i). split; [lia|]. apply in_seq. lia.
Qed.

(** What a run is when validation passes. *)
Lemma run_after_validation
    (math_sin : float -> res float) (args : Args) :
  fst (validate args "") = inr tt ->
  run math_sin args
  = match traverse (sample math_sin args) (range (length_ args)) with
    | inl e => (inl e, "")
    | inr lut =>
        if values_only args then print_values args lut ""
        else print_code args lut ""
    end.
Proof.
  intros Hval. unfold run, main, bind.
  rewrite (validate_ok_out _ _ Hval), generate_traverse.
  destruct (traverse _ _); [reflexivity|].
  now destruct (values_only args).
Qed.

Lemma validate_result (args : Args) :
  (exists e, validate args "" = (inl e, "")) \/ validate args "" = (inr tt, "").
Proof.
  rewrite validate_cases.
  destruct (_ && _); [left; eauto|].
  destruct (_ && _); [left; eauto|].
  destruct (_ >? _); [left; eauto|now right].
Qed.

(** A run that ends in an exception has written nothing: the exception comes
    from validation or from the computation of a sample, both of which
    precede the first print, and printing itself never raises. *)
Theorem failed_run_prints_nothing
    (math_sin : float -> res float) (args : Args) (e : exn) (out : string) :
  run math_sin args = (inl e, out) ->
  out = "" /\
  (validate args "" = (inl e, "") \/
   (validate args "" = (inr tt, "") /\
    exists i, 0 <= i < length_ args /\ sample math_sin args i = inl e)).
Proof.
  intros Hrun.
  destruct (validate_result args) as [[e0 Hval]|Hval].
  - rewrite (run_validation_error _ _ _ Hval) in Hrun.
    injection Hrun as <- <-. auto.
  - rewrite run_after_validation in Hrun by now rewrite Hval.
    destruct (traverse (sample math_sin args) (range (length_ args)))
      as [e1|lut] eqn:Htr.
    + injection Hrun as <- <-. split; [reflexivity|]. right.
      split; [assumption|].
      apply traverse_error in Htr as [i [Hin Hi]].
      exists i. split; [now apply range_in|assumption].
    + exfalso.
      assert (Hlen : List.length lut = Z.to_nat (length_ args)).
      { apply traverse_Forall2, Forall2_length in Htr.
        now rewrite <- Htr, range_length. }
      destruct (values_only args).
      * rewrite print_values_out in Hrun by assumption. discriminate.
      * rewrite print_code_out in Hrun by assumption. discriminate.
Qed.

Lemma failed_run_prints_nothing_witness :
  "" = "" /\
  (validate (with_amplitude nan (default_args 4)) ""
   = (inl (ValueError "cannot convert float NaN to integer"), "") \/
   (validate (with_amplitude nan (default_args 4)) "" = (inr tt, "") /\
    exists i, 0 <= i < length_ (with_amplitude nan (default_args 4)) /\
              sample sin_approx (with_amplitude nan (default_args 4)) i
              = inl (ValueError "cannot convert float NaN to integer"))).
Proof.
  apply (failed_run_prints_nothing sin_approx
           (with_amplitude nan (default_args 4))).
  reflexivity.
Defined.

(** A run ends normally exactly when validation passes and every sample for
    an index below the length is computed without an exception. *)
Theorem run_succeeds_iff
    (math_sin : float -> res float) (args : Args) :
  fst (run math_sin args) = inr tt <->
  (fst (validate args "") = inr tt /\
   forall i, 0 <= i < length_ args -> exists v, sample math_sin args i = inr v).
Proof.
  split.
  - intros Hrun.
    destruct (validate_result args) as [[e0 Hval]|Hval].
    { rewrite (run_validation_error _ _ _ Hval) in Hrun. discriminate. }
    split; [now rewrite Hval|].
    rewrite run_after_validation in Hrun by now rewrite Hval.
    destruct (traverse (sample math_sin args) (range (length_ args)))
      as [e1|lut] eqn:Htr; [discriminate|].
    intros i Hi. apply traverse_Forall2 in Htr.
    destruct (Forall2_nth _ _ _ Htr _ _ (range_nth _ _ Hi)) as [v [_ Hv]].
    now exists v.
  - intros [Hval Hall].
    destruct (traverse_total (sample math_sin args) (range (length_ args)))
      as [lut Hlut].
    { apply Forall_forall. intros i Hin. apply Hall. now apply range_in. }
    assert (Hgen : generate math_sin args "" = (inr lut, ""))
      by now rewrite generate_traverse, Hlut.
    now rewrite (run_rendering math_sin args lut "" "" Hval Hgen).
Qed.

(** ** Options that a mode ignores *)

Lemma generate_with_values_only
    (math_sin : float -> res float) (args : Args) (out : string) :
  generate math_sin (with_values_only args) out = generate math_sin args out.
Proof. destruct args. reflexivity. Qed.

Lemma validate_with_values_only (args : Args) :
  fst (validate args "") = inr tt ->
  fst (validate (with_values_only args) "") = inr tt.
Proof.
  intros Hval. apply validate_ok_cutoffs in Hval.
  rewrite validate_cases. simpl.
  destruct (Z.gtb_spec (lower_cutoff args) (upper_cutoff args)); [lia|reflexivity].
Qed.

(** In values-only mode the wrap width is ignored: any two wrap widths give
    the same run. *)
Theorem values_only_ignores_wrap
    (math_sin : float -> res float) (args : Args) (w : Z) :
  values_only args = true ->
  run math_sin (with_wrap w args) = run math_sin args.
Proof.
  destruct args as [n dt nm a f p s lo hi w0 vo]. simpl. intros ->.
  unfold run, main, bind. rewrite !validate_cases. simpl.
  destruct (lo >? hi); reflexivity.
Qed.

Lemma values_only_ignores_wrap_witness :
  run sin_approx (with_wrap 1 (with_values_only (default_args 4)))
  = run sin_approx (with_values_only (default_args 4)).
Proof.
  apply (values_only_ignores_wrap sin_approx (with_values_only (default_args 4)) 1).
  reflexivity.
Defined.

(** ** The two renderings compared *)

Lemma render_ext_bounded (f g : Z -> string) (vs : list Z) :
  forall i,
    (forall j, i <= j < i + Z.of_nat (List.length vs) -> f j = g j) ->
    render f i vs = render g i vs.
Proof.
  induction vs as [|v vs IH]; intros i H; [reflexivity|].
  cbn [render]. cbn [List.length] in H.
  rewrite (H i) by lia. rewrite (IH (i + 1)); [reflexivity|].
  intros j Hj. apply H. lia.
Qed.

Lemma code_before_unwrapped (w : Z) :
  w <= 0 -> forall j, 0 <= j -> code_before w j = separator j.
Proof.
  intros Hw j Hj. unfold code_before, separator.
  destruct (Z.gtb_spec w 0) as [Hgt|_]; [lia|]. simpl.
  destruct (Z.gtb_spec j 0), (Z.eqb_spec j 0); (reflexivity || lia).
Qed.

(** The values-only run of a configuration whose declaration run is known. *)
Lemma values_only_run
    (math_sin : float -> res float) (args : Args) (lut : list Z) :
  fst (validate args "") = inr tt ->
  generate math_sin args "" = (inr lut, "") ->
  run math_sin (with_values_only args)
  = (inr tt, render separator 0 lut ++ newline).
Proof.
  intros Hval Hgen.
  rewrite (run_rendering math_sin (with_values_only args) lut "" "").
  - reflexivity.
  - now apply validate_with_values_only.
  - now rewrite generate_with_values_only.
Qed.

(** With wrapping disabled, by a wrap width of 0 or by a negative one, the
    declaration is the values-only line between the opening "{ " and the
    closing "};". *)
Theorem unwrapped_declaration_holds_values_only_line
    (math_sin : float -> res float) (args : Args) (lut : list Z) :
  values_only args = false ->
  wrap args <= 0 ->
  fst (validate args "") = inr tt ->
  generate math_sin args "" = (inr lut, "") ->
  exists line,
    run math_sin (with_values_only args) = (inr tt, line ++ newline) /\
    run math_sin args = (inr tt, header args ++ line ++ "};" ++ newline).
Proof.
  intros Hv Hw Hval Hgen. exists (render separator 0 lut). split.
  - now apply values_only_run.
  - rewrite (run_rendering math_sin args lut "" "" Hval Hgen), Hv.
    rewrite (render_ext _ separator)
      by (intros j Hj; now apply code_before_unwrapped).
    destruct (Z.gtb_spec (wrap args) 0) as [Hgt|_]; [lia|reflexivity].
Qed.

Lemma unwrapped_declaration_holds_values_only_line_witness :
  exists line,
    run sin_approx (with_values_only (with_wrap (-3) (default_args 4)))
    = (inr tt, line ++ newline) /\
    run sin_approx (with_wrap (-3) (default_args 4))
    = (inr tt,
       header (with_wrap (-3) (default_args 4)) ++ line ++ "};" ++ newline).
Proof.
  apply (unwrapped_declaration_holds_values_only_line sin_approx
           (with_wrap (-3) (default_args 4)) [0; 255; 0; 0]).
  - reflexivity.
  - simpl. lia.
  - reflexivity.
  - reflexivity.
Defined.

(** With a wrap width that is at least the length of a table that is not
    empty, the declaration holds the values-only line on one line of its
    own, after a two-space indent. *)
Theorem wide_wrap_gives_one_line
    (math_sin : float -> res float) (args : Args) (lut : list Z) :
  values_only args = false ->
  0 < length_ args <= wrap args ->
  fst (validate args "") = inr tt ->
  generate math_sin args "" = (inr lut, "") ->
  exists line,
    run math_sin (with_values_only args) = (inr tt, line ++ newline) /\
    run math_sin args
    = (inr tt,
       header args ++ newline ++ "  " ++ line ++ newline ++ "};" ++ newline).
Proof.
  intros Hv Hn Hval Hgen. exists (render separator 0 lut). split.
  - now apply values_only_run.
  - rewrite (run_rendering math_sin args lut "" "" Hval Hgen), Hv.
    pose proof (generate_length _ _ _ _ _ Hgen) as Hlen.
    destruct (Z.gtb_spec (wrap args) 0) as [_|Hle]; [|lia].
    destruct lut as [|v vs]; [simpl in Hlen; lia|].
    cbn [render]. cbn [List.length] in Hlen.
    rewrite (render_ext_bounded (code_before (wrap args)) separator).
    + unfold code_before, separator.
      destruct (Z.gtb_spec (wrap args) 0) as [_|Hle]; [|lia].
      rewrite Z.mod_0_l by lia. simpl. norm_text. reflexivity.
    + intros j Hj. unfold code_before, separator.
      destruct (Z.gtb_spec (wrap args) 0) as [_|Hle]; [|lia].
      destruct (Z.gtb_spec j 0); [|lia].
      destruct (Z.eqb_spec j 0); [lia|].
      rewrite Z.mod_small by lia.
      destruct (Z.eqb_spec j 0); [lia|]. reflexivity.
Qed.

Lemma wide_wrap_gives_one_line_witness :
  exists line,
    run sin_approx (with_values_only (default_args 4)) = (inr tt, line ++ newline) /\
    run sin_approx (default_args 4)
    = (inr tt,
       header (default_args 4) ++ newline ++ "  " ++ line ++ newline ++ "};" ++
       newline).
Proof.
  apply (wide_wrap_gives_one_line sin_approx (default_args 4) [0; 255; 0; 0]).
  - reflexivity.
  - simpl. lia.
  - reflexivity.
  - reflexivity.
Defined.

(** With a length of 0 or below, declaration mode still writes the length
    constant with the length as given, and then an array without values:
    the opening, a newline when wrapping is on, and the closing. *)
Theorem empty_declaration
    (math_sin : float -> res float) (args : Args) :
  values_only args = false ->
  length_ args <= 0 ->
  fst (validate args "") = inr tt ->
  run math_sin args
  = (inr tt,
     "const int " ++ name args ++ "_LENGTH{ " ++ str (length_ args) ++ " };" ++
     newline ++
     "const " ++ data_type args ++ " " ++ name args ++ "{ " ++
     (if wrap args >? 0 then newline else "") ++ "};" ++ newline).
Proof.
  intros Hv Hn Hval.
  assert (Hgen : generate math_sin args "" = (inr [], "")).
  { rewrite generate_traverse, range_nonpos by assumption. reflexivity. }
  rewrite (run_rendering math_sin args [] "" "" Hval Hgen), Hv.
  unfold header. cbn [render]. norm_text. reflexivity.
Qed.

Lemma empty_declaration_witness :
  run sin_approx (default_args (-5))
  = (inr tt,
     "const int " ++ "BRIGHTNESS_LUT" ++ "_LENGTH{ " ++ "-5" ++ " };" ++
     newline ++
     "const " ++ "byte" ++ " " ++ "BRIGHTNESS_LUT" ++ "{ " ++
     newline ++ "};" ++ newline).
Proof.
  apply (empty_declaration sin_approx (default_args (-5))).
  - reflexivity.
  - simpl. lia.
  - reflexivity.
Defined.

(** ** The lines of the output *)

Lemma newlines_app (a b : string) : newlines (a ++ b) = newlines a + newlines b.
Proof.
  unfold newlines. rewrite <- Nat2Z.inj_add. f_equal.
  induction a as [|c a IH]; simpl; [reflexivity|]. rewrite IH. lia.
Qed.

Lemma uint_newlines (d : Decimal.uint) :
  newlines (NilEmpty.string_of_uint d) = 0.
Proof.
  induction d; cbn [NilEmpty.string_of_uint]; [reflexivity|..];
    match goal with
    | |- newlines (String ?c ?s) = 0 =>
        change (String c s) with (String c "" ++ s);
        rewrite newlines_app, IHd; reflexivity
    end.
Qed.

Lemma str_newlines (v : Z) : newlines (str v) = 0.
Proof.
  unfold str, NilZero.string_of_int, NilZero.string_of_uint.
  destruct (Z.to_int v) as [d|d].
  - destruct d; try apply uint_newlines. reflexivity.
  - change (String "-" ?s) with ("-" ++ s). rewrite newlines_app.
    destruct d; try (rewrite uint_newlines; reflexivity). reflexivity.
Qed.

Lemma separator_newlines (i : Z) : newlines (separator i) = 0.
Proof. unfold separator. now destruct (i =? 0). Qed.

Lemma render_separator_newlines (vs : list Z) :
  forall i, newlines (render separator i vs) = 0.
Proof.
  induction vs as [|v vs IH]; intros i; [reflexivity|].
  cbn [render]. rewrite !newlines_app, separator_newlines, str_newlines, IH.
  reflexivity.
Qed.

Lemma wrapped_newlines (w i : Z) :
  newlines (wrapped w i) = if i mod w =? 0 then 1 else 0.
Proof.
  unfold wrapped. rewrite newlines_app, separator_newlines.
  now destruct (i mod w =? 0).
Qed.

(** One more index below a multiple of [w] adds a line exactly at the
    multiples of [w]. *)
Lemma ceiling_step (w i : Z) :
  0 < w -> 0 <= i ->
  (i + 1 + w - 1) / w = (i + w - 1) / w + (if i mod w =? 0 then 1 else 0).
Proof.
  intros Hw Hi.
  pose proof (Z.div_mod i w ltac:(lia)) as Hdm.
  pose proof (Z.mod_pos_bound i w Hw) as Hr.
  replace (i + 1 + w - 1) with (i + 1 * w) by lia.
  rewrite Z.div_add by lia.
  destruct (Z.eqb_spec (i mod w) 0) as [H0|Hn0].
  - rewrite <- (Z.div_unique (i + w - 1) w (i / w) (w - 1)); lia.
  - rewrite <- (Z.div_unique (i + w - 1) w (i / w + 1) (i mod w - 1)); lia.
Qed.

Lemma render_wrapped_newlines (w : Z) (vs : list Z) :
  0 < w ->
  forall i, 0 <= i ->
    newlines (render (wrapped w) i vs)
    = (i + Z.of_nat (List.length vs) + w - 1) / w - (i + w - 1) / w.
Proof.
  intros Hw. induction vs as [|v vs IH]; intros i Hi.
  - cbn [render List.length]. rewrite Z.add_0_r. unfold newlines. simpl. lia.
  - cbn [render List.length].
    rewrite !newlines_app, wrapped_newlines, str_newlines, IH by lia.
    rewrite (ceiling_step w i) by assumption.
    replace (i + 1 + Z.of_nat (List.length vs) + w - 1)
      with (i + Z.of_nat (S (List.length vs)) + w - 1) by lia.
    lia.
Qed.

Lemma header_newlines (args : Args) :
  newlines (header args)
  = 1 + 2 * newlines (name args) + newlines (data_type args).
Proof.
  unfold header. rewrite !newlines_app, str_newlines.
  change (newlines "const int ") with 0.
  change (newlines "_LENGTH{ ") with 0.
  change (newlines " };") with 0.
  change (newlines "const ") with 0.
  change (newlines " ") with 0.
  change (newlines "{ ") with 0.
  change (newlines newline) with 1.
  lia.
Qed.

(** In values-only mode the output is one line: no newline but the one that
    ends it. *)
Theorem values_only_output_is_one_line
    (math_sin : float -> res float) (args : Args) (out : string) :
  values_only args = true ->
  run math_sin args = (inr tt, out) ->
  exists line, out = line ++ newline /\ newlines line = 0.
Proof.
  intros Hv Hrun.
  assert (Hok : fst (run math_sin args) = inr tt) by now rewrite Hrun.
  destruct (validate_result args) as [[e0 Hval]|Hval].
  { rewrite (run_validation_error _ _ _ Hval) in Hrun. discriminate. }
  rewrite run_after_validation in Hrun by now rewrite Hval.
  destruct (traverse (sample math_sin args) (range (length_ args)))
    as [e1|lut] eqn:Htr; [discriminate|].
  assert (Hlen : List.length lut = Z.to_nat (length_ args)).
  { apply traverse_Forall2, Forall2_length in Htr.
    now rewrite <- Htr, range_length. }
  rewrite Hv, print_values_out in Hrun by assumption.
  injection Hrun as <-.
  exists (render separator 0 lut). split; [reflexivity|].
  apply render_separator_newlines.
Qed.

Lemma values_only_output_is_one_line_witness :
  exists line, "0, 255, 0, 0" ++ newline = line ++ newline /\ newlines line = 0.
Proof.
  apply (values_only_output_is_one_line sin_approx
           (with_values_only (default_args 4))).
  - reflexivity.
  - reflexivity.
Defined.

(** In declaration mode with a wrap width [w] above 0 and a length [n] that
    is not negative, the values take ceil(n / w) lines: for a name and a data
    type without newline the output has 3 + ceil(n / w) lines in all (the
    length constant, the opening, the lines of values, the closing). *)
Theorem declaration_line_count
    (math_sin : float -> res float) (args : Args) (out : string) :
  values_only args = false ->
  0 < wrap args ->
  0 <= length_ args ->
  newlines (name args) = 0 ->
  newlines (data_type args) = 0 ->
  run math_sin args = (inr tt, out) ->
  newlines out = 3 + (length_ args + wrap args - 1) / wrap args.
Proof.
  intros Hv Hw Hn Hname Htype Hrun.
  destruct (validate_result args) as [[e0 Hval]|Hval].
  { rewrite (run_validation_error _ _ _ Hval) in Hrun. discriminate. }
  rewrite run_after_validation in Hrun by now rewrite Hval.
  destruct (traverse (sample math_sin args) (range (length_ args)))
    as [e1|lut] eqn:Htr; [discriminate|].
  assert (Hlen : List.length lut = Z.to_nat (length_ args)).
  { apply traverse_Forall2, Forall2_length in Htr.
    now rewrite <- Htr, range_length. }
  rewrite Hv, print_code_out in Hrun by assumption.
  apply (f_equal snd) in Hrun. cbn [snd] in Hrun. subst out.
  rewrite (render_ext _ (wrapped (wrap args)))
    by (intros j Hj; now apply code_before_wrapped).
  destruct (Z.gtb_spec (wrap args) 0) as [_|Hle]; [|lia].
  rewrite !newlines_app, header_newlines, Hname, Htype.
  rewrite render_wrapped_newlines by lia.
  rewrite Hlen, Z2Nat.id by assumption.
  replace ((0 + wrap args - 1) / wrap args) with 0
    by (symmetry; apply Z.div_small; lia).
  change (newlines "") with 0.
  change (newlines "};") with 0.
  change (newlines newline) with 1.
  rewrite (Z.add_0_l (length_ args)). lia.
Qed.

Lemma declaration_line_count_witness :
  newlines ("const int BRIGHTNESS_LUT_LENGTH{ 5 };" ++ newline ++
            "const byte BRIGHTNESS_LUT{ " ++ newline ++
            "  0, 243, " ++ newline ++
            "  150, 0, " ++ newline ++
            "  0" ++ newline ++
            "};" ++ newline)
  = 3 + (length_ (with_wrap 2 (default_args 5)) + 2 - 1) / 2.
Proof.
  apply (declaration_line_count sin_approx (with_wrap 2 (default_args 5))).
  - reflexivity.
  - simpl. lia.
  - simpl. lia.
  - reflexivity.
  - reflexivity.
  - vm_compute. reflexivity.
Defined.

(** ** The identifier patterns

    Matching by derivatives decides membership in the language of the
    regular expression; the two patterns of the script are then read as
    explicit scans of the characters. *)

Lemma lang_nullable (r : regex) : nullable r = true <-> lang r "".
Proof.
  split.
  - induction r; simpl; intros H; try discriminate.
    + constructor.
    + apply andb_true_iff in H as [H1 H2].
      change "" with ("" ++ ""). constructor; auto.
    + apply orb_true_iff in H as [H|H]; [apply lang_alt_l|apply lang_alt_r]; auto.
    + constructor.
  - intros H. remember "" as s eqn:Hs.
    induction H; simpl; try reflexivity; try discriminate.
    + destruct s1; [|discriminate]. simpl in Hs. subst s2.
      now rewrite IHlang1, IHlang2.
    + now rewrite IHlang.
    + rewrite IHlang by assumption. apply orb_true_r.
Qed.

Lemma lang_deriv_sound (c : ascii) (r : regex) :
  forall s, lang (deriv c r) s -> lang r (String c s).
Proof.
  induction r; simpl; intros s H.
  - inversion H.
  - inversion H.
  - destruct (p c) eqn:Hp; inversion H; subst. now constructor.
  - assert (Hseq : forall t, lang (Seq (deriv c r1) r2) t ->
                             lang (Seq r1 r2) (String c t)).
    { intros t Ht. inversion Ht; subst.
      change (String c (s1 ++ s2)) with (String c s1 ++ s2).
      constructor; auto. }
    destruct (nullable r1) eqn:Hn; [|now apply Hseq].
    inversion H; subst; [now apply Hseq|].
    change (String c s) with ("" ++ String c s).
    constructor; [now apply lang_nullable|auto].
  - inversion H; subst; [apply lang_alt_l|apply lang_alt_r]; auto.
  - inversion H; subst.
    change (String c (s1 ++ s2)) with (String c s1 ++ s2).
    constructor; auto.
Qed.

Lemma lang_deriv_complete (c : ascii) (r : regex) (s0 : string) :
  lang r s0 -> forall s, s0 = String c s -> lang (deriv c r) s.
Proof.
  induction 1 as [|p d Hp|r1 r2 s1 s2 H1 IH1 H2 IH2|r1 r2 t H IH|r1 r2 t H IH
                 |r|r s1 s2 H1 IH1 H2 IH2]; intros s Hs; simpl.
  - discriminate.
  - injection Hs as -> <-. rewrite Hp. constructor.
  - destruct s1 as [|d s1]; simpl in Hs.
    + apply lang_nullable in H1. rewrite H1. apply lang_alt_r. auto.
    + injection Hs as -> <-.
      assert (Hseq : lang (Seq (deriv c r1) r2) (s1 ++ s2))
        by (constructor; auto).
      destruct (nullable r1); [now apply lang_alt_l|assumption].
  - apply lang_alt_l. auto.
  - apply lang_alt_r. auto.
  - discriminate.
  - destruct s1 as [|d s1]; simpl in Hs.
    + apply (IH2 s Hs).
    + injection Hs as -> <-. constructor; auto.
Qed.

(** The matcher accepts exactly the texts of the language. *)
Lemma fullmatch_lang (r : regex) (s : string) :
  fullmatch r s = true <-> lang r s.
Proof.
  revert r. induction s as [|c s IH]; intros r; simpl.
  - apply lang_nullable.
  - rewrite IH. split.
    + apply lang_deriv_sound.
    + intros H. now apply (lang_deriv_complete c r (String c s)).
Qed.

Lemma chop_newline_append (s : string) : chop_newline (s ++ newline) = Some s.
Proof.
  induction s as [|c s IH]; [reflexivity|].
  cbn [append]. cbn [chop_newline].
  destruct (s ++ newline) eqn:Hs.
  - destruct s; discriminate.
  - now rewrite IH.
Qed.

Lemma chop_newline_inv (s s' : string) :
  chop_newline s = Some s' -> s = s' ++ newline.
Proof.
  revert s'. induction s as [|c s IH]; intros s' H; [discriminate|].
  cbn [chop_newline] in H. destruct s as [|d s].
  - destruct (Ascii.eqb_spec c (ascii_of_nat 10)); [|discriminate].
    injection H as <-. now subst c.
  - destruct (chop_newline (String d s)) as [t|]; [|discriminate].
    injection H as <-. cbn [append]. f_equal. now apply IH.
Qed.

(** What the anchors add to the pattern between them. *)
Lemma re_match_cases (r : regex) (s : string) :
  re_match r s = true <->
  fullmatch r s = true \/ exists s', s = s' ++ newline /\ fullmatch r s' = true.
Proof.
  unfold re_match. rewrite orb_true_iff. split.
  - intros [H|H]; [now left|right].
    destruct (chop_newline s) as [s'|] eqn:Hc; [|discriminate].
    exists s'. split; [now apply chop_newline_inv|assumption].
  - intros [H|[s' [-> H]]]; [now left|right].
    now rewrite chop_newline_append.
Qed.

Lemma lang_star_class (p : ascii -> bool) (s : string) :
  lang (Star (Class p)) s <-> all_chars p s = true.
Proof.
  split.
  - intros H. remember (Star (Class p)) as r eqn:Hr.
    induction H; try discriminate; [reflexivity|].
    injection Hr as ->. inversion H; subst. simpl.
    match goal with Hp : p _ = true |- _ => rewrite Hp end.
    now rewrite IHlang2.
  - induction s as [|c s IH]; simpl; intros H; [constructor|].
    apply andb_true_iff in H as [Hc Hs].
    change (String c s) with (String c "" ++ s).
    constructor; [now constructor|auto].
Qed.

Lemma lang_identifier (s : string) :
  lang regex_cpp_identifier s <-> is_identifier s = true.
Proof.
  unfold regex_cpp_identifier. split.
  - intros H. inversion H as [| |r1 r2 s1 s2 H1 H2| | | |]; subst.
    inversion H1; subst. simpl.
    apply lang_star_class in H2.
    match goal with Hp : ident_start _ = true |- _ => rewrite Hp end.
    now rewrite H2.
  - destruct s as [|c s]; simpl; [discriminate|]. intros H.
    apply andb_true_iff in H as [Hc Hs].
    change (String c s) with (String c "" ++ s).
    constructor; [now constructor|now apply lang_star_class].
Qed.

(** The array name is accepted exactly when it is a bare identifier, alone
    or followed by one newline (the "$" of the pattern also matches just
    before a newline that ends the text). *)
Theorem name_pattern_accepts_identifiers (s : string) :
  re_match regex_cpp_identifier s = true <->
  is_identifier s = true \/
  exists s', s = s' ++ newline /\ is_identifier s' = true.
Proof.
  rewrite re_match_cases, fullmatch_lang, lang_identifier.
  split; intros [H|[s' [Hs H]]]; auto; right; exists s'; split; auto.
  - now apply lang_identifier, fullmatch_lang.
  - now apply fullmatch_lang, lang_identifier.
Qed.

Lemma ident_start_char (c : ascii) : ident_start c = true -> ident_char c = true.
Proof.
  unfold ident_start, ident_char.
  destruct (in_range 97 122 c), (in_range 65 90 c), (in_range 48 57 c),
    (Ascii.eqb c "_"); simpl; auto.
Qed.

Lemma all_chars_app (p : ascii -> bool) (a b : string) :
  all_chars p (a ++ b) = all_chars p a && all_chars p b.
Proof.
  induction a as [|c a IH]; simpl; [reflexivity|].
  now rewrite IH, andb_assoc.
Qed.

Lemma is_identifier_snoc (i : string) (d : ascii) :
  is_identifier i = true -> ident_char d = true ->
  is_identifier (i ++ String d "") = true.
Proof.
  destruct i as [|c i]; simpl; [discriminate|]. intros H Hd.
  apply andb_true_iff in H as [Hc Hi].
  now rewrite Hc, all_chars_app, Hi; simpl; rewrite Hd.
Qed.

Lemma group_plain (i : string) :
  is_identifier i = true -> lang scoped_group i.
Proof.
  intros H. change i with ("" ++ i). constructor.
  - apply lang_alt_l. constructor.
  - now apply lang_identifier.
Qed.

Lemma group_scoped (i : string) :
  is_identifier i = true -> lang scoped_group ("::" ++ i).
Proof.
  intros H. constructor.
  - apply lang_alt_r.
    change "::" with (":" ++ ":"). constructor; now constructor.
  - now apply lang_identifier.
Qed.

Lemma group_inv (g : string) :
  lang scoped_group g ->
  exists i, is_identifier i = true /\ (g = i \/ g = "::" ++ i).
Proof.
  intros H. inversion H as [| |r1 r2 s1 s2 H1 H2| | | |]; subst.
  apply (lang_identifier s2) in H2. exists s2. split; [assumption|].
  inversion H1 as [| | |r1 r2 t Ht|r1 r2 t Ht| |]; subst.
  - inversion Ht; subst. now left.
  - right. inversion Ht as [| |r1 r2 t1 t2 Ht1 Ht2| | | |]; subst.
    inversion Ht1 as [|p c Hc| | | | |]; subst.
    inversion Ht2 as [|p d Hd| | | | |]; subst.
    apply Ascii.eqb_eq in Hc, Hd. now subst.
Qed.

Lemma group_snoc (g : string) (d : ascii) :
  lang scoped_group g -> ident_char d = true ->
  lang scoped_group (g ++ String d "").
Proof.
  intros Hg Hd. apply group_inv in Hg as [i [Hi [->| ->]]].
  - apply group_plain. now apply is_identifier_snoc.
  - rewrite append_assoc. apply group_scoped. now apply is_identifier_snoc.
Qed.

Lemma plus_of_group (g : string) :
  lang scoped_group g -> lang (Plus scoped_group) g.
Proof.
  intros H. rewrite <- (append_nil_r g). constructor; [assumption|constructor].
Qed.

Lemma plus_cons_group (g t : string) :
  lang scoped_group g -> lang (Plus scoped_group) t ->
  lang (Plus scoped_group) (g ++ t).
Proof.
  intros Hg Ht. inversion Ht as [| |r1 r2 g1 rest Hg1 Hrest| | | |]; subst.
  constructor; [assumption|]. now constructor.
Qed.

(** Inside an identifier, more of its characters keep the scan inside. *)
Lemma scoped_scan_chars (cs s : string) :
  all_chars ident_char cs = true ->
  scoped_scan true (cs ++ s) = scoped_scan true s.
Proof.
  induction cs as [|c cs IH]; simpl; [reflexivity|]. intros H.
  apply andb_true_iff in H as [Hc Hcs]. now rewrite Hc, IH.
Qed.

Lemma scoped_scan_group (g s : string) (inside : bool) :
  lang scoped_group g ->
  scoped_scan true s = true ->
  scoped_scan inside (g ++ s) = true.
Proof.
  intros Hg Hs. apply group_inv in Hg as [i [Hi Hg]].
  destruct i as [|c cs]; [discriminate|]. simpl in Hi.
  apply andb_true_iff in Hi as [Hc Hcs].
  assert (Hin : (if inside then ident_char c else ident_start c) = true)
    by (destruct inside; [now apply ident_start_char|assumption]).
  destruct Hg as [->| ->].
  - cbn [append scoped_scan]. now rewrite Hin, scoped_scan_chars.
  - cbn [append scoped_scan].
    replace (if inside then ident_char ":" else ident_start ":") with false
      by now destruct inside.
    change (Ascii.eqb ":" ":") with true. cbn [andb].
    now rewrite Hc, scoped_scan_chars.
Qed.

Lemma star_scoped_scan (s : string) :
  lang (Star scoped_group) s -> scoped_scan true s = true.
Proof.
  intros H. remember (Star scoped_group) as r eqn:Hr.
  induction H; try discriminate; [reflexivity|].
  injection Hr as ->. apply scoped_scan_group; auto.
Qed.

Lemma plus_scoped_scan (s : string) :
  lang (Plus scoped_group) s -> is_scoped_identifier s = true.
Proof.
  intros H. inversion H as [| |r1 r2 g rest Hg Hrest| | | |]; subst.
  apply scoped_scan_group; [assumption|now apply star_scoped_scan].
Qed.

(** What the scan accepts after a group is a text of the language. *)
Lemma scoped_scan_plus (n : nat) :
  forall s g,
    (String.length s <= n)%nat ->
    lang scoped_group g ->
    scoped_scan true s = true ->
    lang (Plus scoped_group) (g ++ s).
Proof.
  induction n as [|n IH]; intros s g Hlen Hg Hs.
  - destruct s; [|simpl in Hlen; lia].
    rewrite append_nil_r. now apply plus_of_group.
  - destruct s as [|c s]; [rewrite append_nil_r; now apply plus_of_group|].
    cbn [scoped_scan] in Hs. simpl in Hlen.
    destruct (ident_char c) eqn:Hc.
    + change (String c s) with (String c "" ++ s). rewrite <- append_assoc.
      apply IH; [lia|now apply group_snoc|assumption].
    + destruct (Ascii.eqb_spec c ":") as [->|]; [|discriminate].
      destruct s as [|c1 [|c2 s]]; try discriminate.
      apply andb_true_iff in Hs as [Hs Hs2].
      apply andb_true_iff in Hs as [Hc1 Hc2].
      apply Ascii.eqb_eq in Hc1. subst c1.
      apply plus_cons_group; [assumption|].
      change (String ":" (String ":" (String c2 s)))
        with (("::" ++ String c2 "") ++ s).
      apply IH; [simpl in Hlen; lia| |assumption].
      apply group_scoped. simpl. now rewrite Hc2.
Qed.

Lemma scoped_identifier_plus (s : string) :
  is_scoped_identifier s = true -> lang (Plus scoped_group) s.
Proof.
  unfold is_scoped_identifier. destruct s as [|c s]; [discriminate|].
  cbn [scoped_scan]. destruct (ident_start c) eqn:Hc.
  - intros Hs. change (String c s) with (String c "" ++ s).
    apply (scoped_scan_plus (String.length s)); [lia| |assumption].
    apply group_plain. simpl. now rewrite Hc.
  - destruct (Ascii.eqb_spec c ":") as [->|]; [|discriminate].
    destruct s as [|c1 [|c2 s]]; try discriminate. intros Hs.
    apply andb_true_iff in Hs as [Hs Hs2].
    apply andb_true_iff in Hs as [Hc1 Hc2].
    apply Ascii.eqb_eq in Hc1. subst c1.
    change (String ":" (String ":" (String c2 s)))
      with (("::" ++ String c2 "") ++ s).
    apply (scoped_scan_plus (String.length s)); [lia| |assumption].
    apply group_scoped. simpl. now rewrite Hc2.
Qed.

Lemma fullmatch_scoped (s : string) :
  fullmatch regex_cpp_identifier_with_scope s = true <->
  is_scoped_identifier s = true.
Proof.
  rewrite fullmatch_lang.
  change regex_cpp_identifier_with_scope with (Plus scoped_group).
  split; [apply plus_scoped_scan|apply scoped_identifier_plus].
Qed.

(** The data type is accepted exactly when a scan of its characters finds
    identifiers, each "::" directly followed by the first character of one,
    and the text ends inside an identifier, or is such a text followed by
    one newline. *)
Theorem data_type_pattern_accepts_scoped_identifiers (s : string) :
  re_match regex_cpp_identifier_with_scope s = true <->
  is_scoped_identifier s = true \/
  exists s', s = s' ++ newline /\ is_scoped_identifier s' = true.
Proof.
  rewrite re_match_cases, fullmatch_scoped.
  split; intros [H|[s' [Hs H]]]; auto; right; exists s'; split; auto;
    now apply fullmatch_scoped.
Qed.

(** Whatever is accepted as an array name is accepted as a data type. *)
Theorem name_accepted_as_data_type (s : string) :
  re_match regex_cpp_identifier s = true ->
  re_match regex_cpp_identifier_with_scope s = true.
Proof.
  rewrite name_pattern_accepts_identifiers,
    data_type_pattern_accepts_scoped_identifiers.
  assert (Hincl : forall t, is_identifier t = true ->
                            is_scoped_identifier t = true).
  { intros t Ht. now apply plus_scoped_scan, plus_of_group, group_plain. }
  intros [H|[s' [Hs H]]]; [left|right; exists s'; split]; auto.
Qed.

Lemma name_accepted_as_data_type_witness :
  re_match regex_cpp_identifier_with_scope "BRIGHTNESS_LUT" = true.
Proof.
  apply (name_accepted_as_data_type "BRIGHTNESS_LUT"). reflexivity.
Defined.

(** ** A wave of amplitude zero *)

(** A zero, of either sign, times any float and added to [S] rounds to an
    integer only as [S] does: a product that is not a zero is NaN, and then
    the sum is NaN and does not round. *)
Lemma py_round_zero_amplitude (a s S : float) (r : Z) :
  a = 0%float \/ a = (-0)%float ->
  py_round (a * s + S)%float = inr r ->
  py_round S = inr r.
Proof.
  intros Ha. unfold py_round. rewrite add_spec, mul_spec.
  destruct Ha as [->| ->];
    [change (Prim2SF 0) with (S754_zero false)
    |change (Prim2SF (-0)) with (S754_zero true)];
    destruct (Prim2SF s) as [bs|bs| |bs ms es];
    destruct (Prim2SF S) as [bS|bS| |bS mS eS];
    try destruct bs; try destruct bS; simpl; intros H;
    (discriminate H || exact H).
Qed.

Lemma sample_zero_amplitude
    (math_sin : float -> res float) (args : Args) (i v : Z) :
  amplitude args = 0%float \/ amplitude args = (-0)%float ->
  sample math_sin args i = inr v ->
  exists r, py_round (shift args) = inr r /\
            v = Z.max (lower_cutoff args) (Z.min (upper_cutoff args) r).
Proof.
  intros Ha. unfold sample, rbind.
  destruct (float_of_int i); [discriminate|].
  destruct (float_of_int (length_ args)); [discriminate|].
  destruct (float_div _ _); [discriminate|].
  destruct (math_sin _) as [e|s]; [discriminate|].
  destruct (py_round (amplitude args * s + shift args)) as [e|r] eqn:Hr;
    [discriminate|].
  apply (py_round_zero_amplitude _ _ _ _ Ha) in Hr.
  intros H. injection H as <-. now exists r.
Qed.

(** With amplitude 0 (of either sign) the table is flat, whatever the sine:
    every entry of a generated table is the rounded vertical shift
    constrained to the cutoffs. *)
Theorem zero_amplitude_gives_flat_table
    (math_sin : float -> res float) (args : Args) (lut : list Z)
    (out out' : string) :
  amplitude args = 0%float \/ amplitude args = (-0)%float ->
  generate math_sin args out = (inr lut, out') ->
  Forall (fun v =>
            exists r, py_round (shift args) = inr r /\
                      v = Z.max (lower_cutoff args)
                                (Z.min (upper_cutoff args) r))
         lut.
Proof.
  intros Ha Hgen. apply generate_inv in Hgen as [_ H].
  induction H as [|i v idxs vs Hv _ IH]; constructor; [|assumption].
  now apply (sample_zero_amplitude math_sin args i).
Qed.

Lemma zero_amplitude_gives_flat_table_witness :
  Forall (fun v => exists r, py_round 100.5%float = inr r /\
                             v = Z.max 0 (Z.min 255 r))
         [100; 100; 100; 100].
Proof.
  apply (zero_amplitude_gives_flat_table sin_approx
           (with_amplitude 0 (with_shift 100.5 (default_args 4)))
           [100; 100; 100; 100] "" "").
  - left. reflexivity.
  - vm_compute. reflexivity.
Defined.
